(** * unimcq: the MCQ quiz generator of app.py

    A shallow embedding of [generate_mcq_questions] and of the grading
    route [submit], and the properties of the generated question records
    and of the grading results.

    Python [str] is [string]; Python [int] is [Z]; [None] is [option].
    NLTK ([sent_tokenize], [word_tokenize], [pos_tag], the stopword list),
    the Unicode-dependent [str] methods ([lower], [isalpha], whitespace)
    and the [random] module are collaborators of the program, not part of
    it: they are the variables of the section [Generator].  The NLTK data
    that [ensure_nltk_data] fetches are taken to be present, so the
    tokenizers and the tagger are total functions.  The random source is
    threaded as an explicit state.  What the function can still raise is
    modelled: the [IndexError] of [parts[1]] when the answer word is not a
    substring of the sentence. *)

From Stdlib Require Import ZArith List String Ascii Bool Lia Permutation.
From Stdlib Require Finite.
Import ListNotations.
Open Scope string_scope.

(** ** Python string primitives used by app.py *)

Module Str.

(** [s.startswith(p)] *)
Definition startswith (s p : string) : bool := String.prefix p s.

(** [s[n:]] *)
Fixpoint drop (n : nat) (s : string) : string :=
  match n, s with
  | O, _ => s
  | S _, EmptyString => EmptyString
  | S k, String _ s' => drop k s'
  end.

(** [x in s] for a character [x] *)
Fixpoint has_char (x : ascii) (s : string) : bool :=
  match s with
  | EmptyString => false
  | String c s' => Ascii.eqb x c || has_char x s'
  end.

(** The first occurrence of a non-empty [sep] in [s], scanning from the
    left: the text before it and the text after it. *)
Fixpoint find_split (sep s : string) : option (string * string) :=
  if String.prefix sep s then Some (EmptyString, drop (String.length sep) s)
  else match s with
       | EmptyString => None
       | String c s' =>
           match find_split sep s' with
           | Some (pre, post) => Some (String c pre, post)
           | None => None
           end
       end.

(** [sep.join(l)] *)
Fixpoint join (sep : string) (l : list string) : string :=
  match l with
  | [] => EmptyString
  | [x] => x
  | x :: rest => x ++ sep ++ join sep rest
  end.

(** [s.count(sub)] for a non-empty [sub]: occurrences found scanning from
    the left, each one starting after the end of the one before.  [skip]
    is the number of characters of the last occurrence still to pass. *)
Fixpoint count_from (sub s : string) (skip : nat) : nat :=
  match s with
  | EmptyString => O
  | String _ s' =>
      match skip with
      | S k => count_from sub s' k
      | O => if String.prefix sub s
             then S (count_from sub s' (String.length sub - 1))
             else count_from sub s' O
      end
  end.

Definition count (s sub : string) : nat := count_from sub s O.

(** [x in l] for a list of strings *)
Definition mem (x : string) (l : list string) : bool :=
  existsb (String.eqb x) l.

(** [s.split()]: the maximal runs of non-whitespace characters. [cur] is
    the run being read. *)
Fixpoint split_ws (isspace : ascii -> bool) (s cur : string) : list string :=
  match s with
  | EmptyString => if String.eqb cur EmptyString then [] else [cur]
  | String c s' =>
      if isspace c
      then (if String.eqb cur EmptyString then split_ws isspace s' EmptyString
            else cur :: split_ws isspace s' EmptyString)
      else split_ws isspace s' (cur ++ String c EmptyString)
  end.

End Str.

(** [sub] occurs in [s] at index [i]. *)
Definition occurs_at (sub : string) (i : nat) (s : string) : bool :=
  String.prefix sub (Str.drop i s).

(** ** Exceptions and results *)

Inductive exn : Type :=
| IndexError   (* [parts[1]] when the separator was not found *)
| ValueError.  (* [split] with an empty separator *)

Inductive result (A : Type) : Type :=
| Ok (a : A)
| Raise (e : exn).
Arguments Ok {A} a.
Arguments Raise {A} e.

Definition bind {A B : Type} (r : result A) (k : A -> result B) : result B :=
  match r with
  | Ok a => k a
  | Raise e => Raise e
  end.

Notation "x <- c ;; k" := (bind c (fun x => k))
  (at level 61, c at next level, right associativity).

(** [sentence.split(answer_word, 1)] *)
Definition split_maxsplit1 (s sep : string) : result (list string) :=
  if String.eqb sep EmptyString then Raise ValueError
  else match Str.find_split sep s with
       | Some (pre, post) => Ok [pre; post]
       | None => Ok [s]
       end.

(** [parts[i]] *)
Definition index (parts : list string) (i : nat) : result string :=
  match nth_error parts i with
  | Some x => Ok x
  | None => Raise IndexError
  end.

(** ** The data model *)

Record MCQ : Type := Build_MCQ {
  id : Z;
  question : string;
  options : list string;
  answer : string
}.

Definition blank : string := "_____".

(** ** generate_mcq_questions *)

Section Generator.

(** NLTK *)
Variable sent_tokenize : string -> list string.
Variable word_tokenize : string -> list string.
Variable pos_tag : list string -> list (string * string).
Variable stop_words : list string.

(** [str.lower], [str.isalpha] and the whitespace test of [str.split] *)
Variable lower : string -> string.
Variable isalpha : string -> bool.
Variable isspace : ascii -> bool.

(** The random module: [random.sample(population, k)] and
    [random.shuffle(x)] over the state of the generator. *)
Variable rng : Type.
Variable random_sample : list string -> nat -> rng -> list string * rng.
Variable random_shuffle : list string -> rng -> list string * rng.

(** [" ".join(text.split())] *)
Definition cleaned_text (text : string) : string :=
  Str.join " " (Str.split_ws isspace text EmptyString).

(** The list comprehension building [noun_pool]. *)
Definition noun_pool (pos_tags : list (string * string)) : list string :=
  map fst
    (filter (fun wt => Str.startswith (snd wt) "NN"
                       && negb (Str.mem (lower (fst wt)) stop_words)
                       && isalpha (fst wt))
            pos_tags).

(** The de-duplication loop: [seen] and [unique_nouns] grow together. *)
Fixpoint dedup (pool seen unique_nouns : list string) : list string :=
  match pool with
  | [] => unique_nouns
  | noun :: rest =>
      let lower_n := lower noun in
      if negb (Str.mem lower_n seen)
      then dedup rest (lower_n :: seen) (unique_nouns ++ [lower_n])
      else dedup rest seen unique_nouns
  end.

Definition unique_nouns_of (cleaned : string) : list string :=
  dedup (noun_pool (pos_tag (word_tokenize cleaned))) [] [].

(** The inner [for word, tag in tags] loop with its [break]. *)
Fixpoint first_eligible (unique_nouns : list string)
         (tags : list (string * string)) : option string :=
  match tags with
  | [] => None
  | (word, tag) :: rest =>
      if Str.startswith tag "NN" && Str.mem (lower word) unique_nouns
      then Some word
      else first_eligible unique_nouns rest
  end.

(** [not answer_word]: [None] and the empty string are both falsy. *)
Definition falsy (answer_word : option string) : bool :=
  match answer_word with
  | None => true
  | Some w => String.eqb w EmptyString
  end.

(** The body of the sentence loop after an answer word was chosen. *)
Definition make_mcq (unique_nouns : list string) (sentence answer_word : string)
           (question_id : Z) (g : rng) : result (MCQ * rng) :=
  parts <- split_maxsplit1 sentence answer_word ;;
  p0 <- index parts 0 ;;
  p1 <- index parts 1 ;;
  let question_text := p0 ++ blank ++ p1 in
  let distractor_pool :=
    filter (fun n => negb (String.eqb n (lower answer_word))) unique_nouns in
  let num_distractors := Nat.min 3 (List.length distractor_pool) in
  let '(distractors, g1) :=
    match distractor_pool with
    | [] => ([], g)
    | _ :: _ => random_sample distractor_pool num_distractors g
    end in
  let '(options, g2) := random_shuffle (distractors ++ [answer_word]) g1 in
  Ok (Build_MCQ question_id question_text options answer_word, g2).

(** [for sentence in sentences]: the state is [mcq_list], [question_id]
    and the random generator. *)
Fixpoint sentence_loop (unique_nouns : list string) (num_questions : Z)
         (sentences : list string) (mcq_list : list MCQ) (question_id : Z)
         (g : rng) : result (list MCQ * rng) :=
  match sentences with
  | [] => Ok (mcq_list, g)
  | sentence :: rest =>
      if (Z.of_nat (List.length mcq_list) >=? num_questions)%Z
      then Ok (mcq_list, g)
      else
        let answer_word :=
          first_eligible unique_nouns (pos_tag (word_tokenize sentence)) in
        match answer_word with
        | Some w =>
            if falsy answer_word
            then sentence_loop unique_nouns num_questions rest mcq_list question_id g
            else
              r <- make_mcq unique_nouns sentence w question_id g ;;
              sentence_loop unique_nouns num_questions rest
                (mcq_list ++ [fst r]) (question_id + 1)%Z (snd r)
        | None => sentence_loop unique_nouns num_questions rest mcq_list question_id g
        end
  end.

(** The function after the vocabulary guard, on the sentences. *)
Definition generate_from (unique_nouns : list string) (num_questions : Z)
           (sentences : list string) (g : rng) : result (list MCQ * rng) :=
  match unique_nouns with
  | [] => Ok ([], g)
  | _ :: _ => sentence_loop unique_nouns num_questions sentences [] 0%Z g
  end.

Definition generate_mcq_questions (text : string) (num_questions : Z)
           (g : rng) : result (list MCQ * rng) :=
  let cleaned := cleaned_text text in
  let sentences := sent_tokenize cleaned in
  generate_from (unique_nouns_of cleaned) num_questions sentences g.

(** *** Notions used to state the properties *)

(** The distractors drawn for [answer_word] from generator state [g]. *)
Definition draw (unique_nouns : list string) (answer_word : string) (g : rng)
  : list string * rng :=
  let distractor_pool :=
    filter (fun n => negb (String.eqb n (lower answer_word))) unique_nouns in
  match distractor_pool with
  | [] => ([], g)
  | _ :: _ =>
      random_sample distractor_pool (Nat.min 3 (List.length distractor_pool)) g
  end.

(** A record that the loop body makes from [sentence]. *)
Definition made_from (unique_nouns : list string) (sentence : string)
           (q : MCQ) : Prop :=
  exists pre post g,
    first_eligible unique_nouns (pos_tag (word_tokenize sentence)) = Some (answer q)
    /\ answer q <> EmptyString
    /\ Str.find_split (answer q) sentence = Some (pre, post)
    /\ question q = pre ++ blank ++ post
    /\ options q =
       fst (random_shuffle
              (fst (draw unique_nouns (answer q) g) ++ [answer q])%list
              (snd (draw unique_nouns (answer q) g))).

End Generator.

(** ** submit: grading the posted form *)

(** One entry of [results]. *)
Record graded : Type := Build_graded {
  result_question : string;
  user_answer : option string;
  correct : option string;
  is_correct : bool
}.

(** [request.form], a multi-dict: the posted fields in the order they were
    sent.  Iterating it gives every key once and [get] gives the first
    value of a key. *)
Definition form : Type := list (string * string).

(** [request.form.get(key)] *)
Fixpoint form_get (f : form) (key : string) : option string :=
  match f with
  | [] => None
  | (k, v) :: rest => if String.eqb k key then Some v else form_get rest key
  end.

(** [for key in request.form]: every key once, by first appearance. *)
Fixpoint form_keys_from (f : form) (seen : list string) : list string :=
  match f with
  | [] => []
  | (k, _) :: rest =>
      if Str.mem k seen then form_keys_from rest seen
      else k :: form_keys_from rest (k :: seen)
  end.

Definition form_keys (f : form) : list string := form_keys_from f [].

(** [a == b] on values that are a string or [None] *)
Definition opt_eqb (a b : option string) : bool :=
  match a, b with
  | Some x, Some y => String.eqb x y
  | None, None => true
  | _, _ => false
  end.

(** [x or ""] *)
Definition or_empty (x : option string) : string :=
  match x with
  | Some s => s
  | None => EmptyString
  end.

(** The filter of the loop of [submit]. *)
Definition graded_key (key : string) : bool :=
  Str.startswith key "q" && negb (Str.startswith key "answer").

(** One iteration of the loop of [submit] on the state [(results, score)]. *)
Definition submit_step (f : form) (st : list graded * Z) (key : string)
  : list graded * Z :=
  let '(results, score) := st in
  if graded_key key then
    let qid := Str.drop 1 key in
    let user_answer := form_get f key in
    let correct_key := "answer" ++ qid in
    let correct_answer := form_get f correct_key in
    let question_text := form_get f ("question" ++ qid) in
    let is_correct := opt_eqb user_answer correct_answer in
    let score := if is_correct then (score + 1)%Z else score in
    ((results ++ [Build_graded (or_empty question_text) user_answer
                               correct_answer is_correct])%list, score)
  else (results, score).

(** The values handed to the result template: [results] and [score]. *)
Definition submit (f : form) : list graded * Z :=
  fold_left (submit_step f) (form_keys f) ([], 0%Z).

(** The record that one iteration appends for [key]. *)
Definition grade (f : form) (key : string) : graded :=
  let qid := Str.drop 1 key in
  Build_graded (or_empty (form_get f ("question" ++ qid)))
               (form_get f key)
               (form_get f ("answer" ++ qid))
               (opt_eqb (form_get f key) (form_get f ("answer" ++ qid))).

(** ** A small instance of the collaborators

    A lexicon tagger, a punctuation-based tokenizer, ASCII case folding and
    a rotating random source: enough to run the program on concrete texts. *)

Module Stub.

Local Open Scope nat_scope.

Definition isspace (c : ascii) : bool :=
  let n := nat_of_ascii c in
  ((9 <=? n) && (n <=? 13)) || ((28 <=? n) && (n <=? 32))
  || (n =? 133) || (n =? 160).

Definition is_upper (c : ascii) : bool :=
  let n := nat_of_ascii c in (65 <=? n) && (n <=? 90).

Definition is_letter (c : ascii) : bool :=
  let n := nat_of_ascii c in
  ((65 <=? n) && (n <=? 90)) || ((97 <=? n) && (n <=? 122)).

Definition lower_char (c : ascii) : ascii :=
  if is_upper c then ascii_of_nat (nat_of_ascii c + 32) else c.

Fixpoint lower (s : string) : string :=
  match s with
  | EmptyString => EmptyString
  | String c s' => String (lower_char c) (lower s')
  end.

Fixpoint all_letters (s : string) : bool :=
  match s with
  | EmptyString => true
  | String c s' => is_letter c && all_letters s'
  end.

Definition isalpha (s : string) : bool :=
  negb (String.eqb s EmptyString) && all_letters s.

Fixpoint last_char (s : string) : option ascii :=
  match s with
  | EmptyString => None
  | String c EmptyString => Some c
  | String _ s' => last_char s'
  end.

Definition ends_sentence (cur : string) : bool :=
  match last_char cur with
  | Some c => Ascii.eqb c "." || Ascii.eqb c "!" || Ascii.eqb c "?"
  | None => false
  end.

Definition emit (cur : string) : list string :=
  if String.eqb cur EmptyString then [] else [cur].

(** A sentence ends at a full stop, question or exclamation mark that is
    followed by a space. *)
Fixpoint sentences_from (s cur : string) : list string :=
  match s with
  | EmptyString => emit cur
  | String c s' =>
      if isspace c && ends_sentence cur
      then cur :: sentences_from s' EmptyString
      else sentences_from s' (cur ++ String c EmptyString)
  end.

Definition sent_tokenize (s : string) : list string :=
  sentences_from s EmptyString.

Definition same_class (c : ascii) (cur : string) : bool :=
  match cur with
  | EmptyString => true
  | String d _ => Bool.eqb (is_letter c) (is_letter d)
  end.

(** Words are the maximal runs of letters and the maximal runs of other
    visible characters. *)
Fixpoint words_from (s cur : string) : list string :=
  match s with
  | EmptyString => emit cur
  | String c s' =>
      if isspace c then (emit cur ++ words_from s' EmptyString)%list
      else if same_class c cur then words_from s' (cur ++ String c EmptyString)
      else (emit cur ++ words_from s' (String c EmptyString))%list
  end.

Definition word_tokenize (s : string) : list string :=
  words_from s EmptyString.

Definition nouns : list string :=
  ["cat"; "mat"; "dog"; "park"; "nan"; "category"].

Definition tag_of (w : string) : string :=
  let l := lower w in
  if Str.mem l nouns then "NN"
  else if Str.mem l ["cats"; "dogs"] then "NNS"
  else if Str.mem l ["the"; "a"] then "DT"
  else if Str.mem l ["on"; "in"; "of"] then "IN"
  else if Str.mem l ["is"; "sat"; "ran"; "chased"] then "VBD"
  else if isalpha w then "JJ"
  else w.

Definition pos_tag (ws : list string) : list (string * string) :=
  map (fun w => (w, tag_of w)) ws.

Definition stop_words : list string :=
  ["the"; "a"; "is"; "of"; "on"; "in"; "and"; "it"].

(** The random source is a counter; a list is rotated by it. *)
Definition rotate (n : nat) (l : list string) : list string :=
  let k := n mod (List.length l) in (skipn k l ++ firstn k l)%list.

Definition random_sample (population : list string) (k : nat) (g : nat)
  : list string * nat :=
  (firstn k (rotate g population), S g).

Definition random_shuffle (x : list string) (g : nat) : list string * nat :=
  (rotate g x, S g).

Definition generate (text : string) (num_questions : Z) (g : nat)
  : result (list MCQ * nat) :=
  generate_mcq_questions sent_tokenize word_tokenize pos_tag stop_words
    lower isalpha isspace nat random_sample random_shuffle
    text num_questions g.

(** Texts and forms of the scenarios, and the records they give. *)

Definition two_sentences : string :=
  "The cat sat on the mat. The dog ran in the park.".

Definition q_cat : MCQ :=
  Build_MCQ 0 "The _____ sat on the mat." ["dog"; "park"; "cat"; "mat"] "cat".

Definition q_dog : MCQ :=
  Build_MCQ 1 "The _____ ran in the park." ["dog"; "park"; "cat"; "mat"] "dog".

Definition cat_twice : string := "The cat chased the cat.".

Definition q_cat_twice : MCQ :=
  Build_MCQ 0 "The _____ chased the cat." ["cat"] "cat".

Definition with_underscores : string := "The _____ cat sat.".

Definition q_underscores : MCQ :=
  Build_MCQ 0 "The _____ _____ sat." ["cat"] "cat".

Definition no_nouns : string := "The is of on.".

Definition nan_overlap : string := "The nanan is a nan.".

Definition q_nan_overlap : MCQ :=
  Build_MCQ 0 "The _____an is a nan." ["nan"] "nan".

Definition posted : form :=
  [("q0", "cat"); ("answer0", "cat"); ("question0", "The _____ sat on the mat.")].

End Stub.

(** ** The rest of app.py *)

(** *** Notions about the generator *)

Section GeneratorNotions.

Variable word_tokenize : string -> list string.
Variable pos_tag : list string -> list (string * string).
Variable lower : string -> string.

(** The sentence has an answer word: the loop does not skip it. *)
Definition eligible_sentence (unique_nouns : list string) (sentence : string)
  : bool :=
  negb (falsy (first_eligible lower unique_nouns
                              (pos_tag (word_tokenize sentence)))).

(** The answer word chosen for the sentence, if any, is a substring of it,
    so that [parts[1]] exists. *)
Definition answer_found (unique_nouns : list string) (sentence : string)
  : bool :=
  match first_eligible lower unique_nouns (pos_tag (word_tokenize sentence)) with
  | Some w =>
      match Str.find_split w sentence with
      | Some _ => true
      | None => false
      end
  | None => true
  end.

End GeneratorNotions.

(** What a record holds apart from its options. *)
Definition core (q : MCQ) : Z * string * string :=
  (id q, question q, answer q).

(** The result of the generator without the options and the random state. *)
Definition outline {S : Type} (r : result (list MCQ * S))
  : result (list (Z * string * string)) :=
  match r with
  | Ok (mcqs, _) => Ok (map core mcqs)
  | Raise e => Raise e
  end.

(** The fields posted for the question [qid], as the comments of [submit]
    name them: the selected option, the correct answer and the question
    text. *)
Definition fields_of (qid : string) : list string :=
  ["q" ++ qid; "answer" ++ qid; "question" ++ qid].

(** A run of [k] underscores. *)
Fixpoint underscores (k : nat) : string :=
  match k with
  | O => EmptyString
  | S k' => String "_" (underscores k')
  end.

(** [s] begins with an underscore. *)
Definition starts_underscore (s : string) : bool :=
  match s with
  | EmptyString => false
  | String c _ => Ascii.eqb "_" c
  end.

(** Every character of [s] satisfies [p]. *)
Fixpoint all_chars (p : ascii -> bool) (s : string) : bool :=
  match s with
  | EmptyString => true
  | String c s' => p c && all_chars p s'
  end.

(** The line feed of ["\n".join]. *)
Definition newline : string := String "010" EmptyString.

(** *** ensure_nltk_data *)

(** The paths looked up and the packages downloaded for them. *)
Definition nltk_resources : list (string * string) :=
  [("tokenizers/punkt", "punkt");
   ("taggers/averaged_perceptron_tagger", "averaged_perceptron_tagger");
   ("corpora/stopwords", "stopwords")].

Section NltkData.

(** The NLTK data directory: [nltk.data.find(path)] succeeds or raises
    [LookupError]; [nltk.download(name)] changes the directory. *)
Variable store : Type.
Variable find : string -> store -> bool.
Variable download : string -> store -> store.

(** One [try: find ... except LookupError: download ...] block. *)
Definition find_or_download (path name : string) (s : store) : store :=
  if find path s then s else download name s.

Definition ensure_nltk_data (s : store) : store :=
  let s1 := find_or_download "tokenizers/punkt" "punkt" s in
  let s2 := find_or_download "taggers/averaged_perceptron_tagger"
                             "averaged_perceptron_tagger" s1 in
  find_or_download "corpora/stopwords" "stopwords" s2.

End NltkData.

(** *** extract_text_from_pdf and the quiz route *)

(** [page.extract_text()]: a string, [None], or an exception. *)
Inductive extracted : Type :=
| Text (s : string)
| NoText
| ExtractFails.

(** [PyPDF2.PdfReader(file_stream)] and its [pages], or the exception
    raised while reading, with its message. *)
Inductive opened (page : Type) : Type :=
| Pages (pages : list page)
| ReadFails (message : string).
Arguments Pages {page} pages.
Arguments ReadFails {page} message.

(** A value or an exception with the text [str(exc)]. *)
Inductive outcome (A : Type) : Type :=
| Done (a : A)
| Raised (message : string).
Arguments Done {A} a.
Arguments Raised {A} message.

(** [request.files.get("pdf_file")] *)
Record FileStorage : Type := Build_FileStorage {
  filename : string;
  stream : string
}.

(** What the route answers: [flash(message)] followed by
    [redirect(url_for("index"))], or the quiz template with [mcqs]. *)
Inductive response : Type :=
| Redirect_index (flashed : string)
| Render_quiz (mcqs : list MCQ).

(** [str(exc)] for the exceptions of the generator. *)
Definition exn_str (e : exn) : string :=
  match e with
  | IndexError => "list index out of range"
  | ValueError => "empty separator"
  end.

Definition select_file_message : string :=
  "Please select a PDF file to upload.".

Definition unable_message : string :=
  "Unable to generate questions from the provided PDF. The document may not contain enough nouns.".

Definition error_prefix : string :=
  "An error occurred while processing the PDF: ".

Section Routes.

Variable sent_tokenize : string -> list string.
Variable word_tokenize : string -> list string.
Variable pos_tag : list string -> list (string * string).
Variable stop_words : list string.
Variable lower : string -> string.
Variable isalpha : string -> bool.
Variable isspace : ascii -> bool.
Variable rng : Type.
Variable random_sample : list string -> nat -> rng -> list string * rng.
Variable random_shuffle : list string -> rng -> list string * rng.

(** PyPDF2 *)
Variable page : Type.
Variable PdfReader : string -> opened page.
Variable extract_text : page -> extracted.

(** [int(value)]: the integer, or [None] for the [ValueError]. *)
Variable int : string -> option Z.

(** [page.extract_text() or ""] inside its [try]. *)
Definition page_text (p : page) : string :=
  match extract_text p with
  | Text s => s
  | NoText => EmptyString
  | ExtractFails => EmptyString
  end.

(** The words of a page: none when the page cannot be read. *)
Definition page_words (p : page) : list string :=
  match extract_text p with
  | Text s => Str.split_ws isspace s EmptyString
  | NoText => []
  | ExtractFails => []
  end.

(** The page gives no word: it cannot be read, or holds only whitespace. *)
Definition blank_page (p : page) : bool :=
  match extract_text p with
  | Text s => all_chars isspace s
  | NoText => true
  | ExtractFails => true
  end.

Definition extract_text_from_pdf (file_stream : string) : outcome string :=
  match PdfReader file_stream with
  | Pages pages => Done (Str.join newline (map page_text pages))
  | ReadFails message => Raised message
  end.

(** [request.form.get("num_questions", type=int, default=5)]: the default
    also when the field is not an integer. *)
Definition num_questions_of (f : form) : Z :=
  match form_get f "num_questions" with
  | Some value =>
      match int value with
      | Some n => n
      | None => 5%Z
      end
  | None => 5%Z
  end.

(** [not file or file.filename == ""]: a [FileStorage] with an empty
    file name is falsy. *)
Definition no_upload (file : option FileStorage) : bool :=
  match file with
  | None => true
  | Some fs => String.eqb (filename fs) EmptyString
  end.

(** The route, as a function of the upload, the form and the state of the
    random generator.  The state left behind is not part of the answer. *)
Definition quiz (file : option FileStorage) (f : form) (g : rng) : response :=
  let num_questions := num_questions_of f in
  match file with
  | Some fs =>
      if no_upload file then Redirect_index select_file_message
      else
        match extract_text_from_pdf (stream fs) with
        | Done text =>
            match generate_mcq_questions
                    sent_tokenize word_tokenize pos_tag stop_words lower
                    isalpha isspace rng random_sample random_shuffle
                    text num_questions g with
            | Ok (mcqs, _) =>
                match mcqs with
                | [] => Redirect_index unable_message
                | _ :: _ => Render_quiz mcqs
                end
            | Raise e => Redirect_index (error_prefix ++ exn_str e)
            end
        | Raised message => Redirect_index (error_prefix ++ message)
        end
  | None => Redirect_index select_file_message
  end.

End Routes.

(** *** The small instance, continued *)

Module StubWeb.

(** A data directory is the list of the resources it holds; the path of a
    resource ends with its name. *)
Fixpoint ends_with (s name : string) : bool :=
  String.eqb s name
  || match s with
     | EmptyString => false
     | String _ s' => ends_with s' name
     end.

Definition find (path : string) (s : list string) : bool :=
  existsb (ends_with path) s.

Definition download (name : string) (s : list string) : list string :=
  name :: s.

(** Three files: two pages of text around a page that cannot be read, a
    scan without text, and anything else, which is not a PDF. *)
Definition PdfReader (file_stream : string) : opened extracted :=
  if String.eqb file_stream "%PDF text" then
    Pages [Text "The cat sat on the mat."; ExtractFails;
           Text "The dog ran in the park."]
  else if String.eqb file_stream "%PDF scan" then
    Pages [NoText; ExtractFails; Text EmptyString]
  else ReadFails "EOF marker not found".

Definition extract_text (p : extracted) : extracted := p.

Local Open Scope Z_scope.

Definition is_digit (c : ascii) : bool :=
  let n := Z.of_nat (nat_of_ascii c) in (48 <=? n) && (n <=? 57).

Fixpoint digits (s : string) (acc : Z) : option Z :=
  match s with
  | EmptyString => Some acc
  | String c s' =>
      if is_digit c
      then digits s' (10 * acc + (Z.of_nat (nat_of_ascii c) - 48))
      else None
  end.

(** Decimal numbers with an optional minus sign. *)
Definition int (s : string) : option Z :=
  match s with
  | EmptyString => None
  | String c s' =>
      if Ascii.eqb c "-"
      then (if String.eqb s' EmptyString then None
            else option_map Z.opp (digits s' 0))
      else digits s 0
  end.

Definition quiz (file : option FileStorage) (f : form) (g : nat) : response :=
  quiz Stub.sent_tokenize Stub.word_tokenize Stub.pos_tag Stub.stop_words
       Stub.lower Stub.isalpha Stub.isspace nat
       Stub.random_sample Stub.random_shuffle
       extracted PdfReader extract_text int file f g.

(** A tokenizer that does not return the words as they are written: it
    folds their case. *)
Definition folding_word_tokenize (s : string) : list string :=
  map Stub.lower (Stub.word_tokenize s).

(** Uploads and forms of the scenarios. *)

Definition notes : FileStorage := Build_FileStorage "notes.pdf" "%PDF text".

Definition scan : FileStorage := Build_FileStorage "scan.pdf" "%PDF scan".

Definition broken : FileStorage := Build_FileStorage "broken.pdf" "not a PDF".

Definition ask_two : form := [("num_questions", "2")].

Definition ask_none : form := [("num_questions", "0")].

Definition unanswered : form :=
  [("q0", "cat"); ("answer0", "cat"); ("q1", "dog")].

Definition not_a_quiz : form :=
  [("answer0", "cat"); ("num_questions", "2")].

Definition two_answers : form :=
  [("q0", "cat"); ("answer0", "cat"); ("question0", "The _____ sat on the mat.");
   ("q1", "park"); ("answer1", "dog"); ("question1", "The _____ ran in the park.")].

End StubWeb.

(** * Properties *)

(** ** Strings *)

Module StrFacts.

Lemma append_assoc (a b c : string) : (a ++ b) ++ c = a ++ (b ++ c).
Proof. induction a as [|x a IH]; simpl; [reflexivity | now rewrite IH]. Qed.

Lemma length_append (a b : string) :
  String.length (a ++ b) = String.length a + String.length b.
Proof. induction a as [|x a IH]; simpl; [reflexivity | now rewrite IH]. Qed.

Lemma prefix_append (p r : string) : String.prefix p (p ++ r) = true.
Proof.
  induction p as [|x p IH]; simpl; [now destruct r|].
  destruct (ascii_dec x x) as [_|N]; [exact IH | now elim N].
Qed.

Lemma prefix_drop (p : string) :
  forall s, String.prefix p s = true -> s = p ++ Str.drop (String.length p) s.
Proof.
  induction p as [|x p IH]; intros s H; simpl.
  - now destruct s.
  - destruct s as [|y s]; simpl in H; [discriminate|].
    destruct (ascii_dec x y) as [->|_]; [|discriminate].
    f_equal. now apply IH.
Qed.

Lemma drop_append (a b : string) (k : nat) :
  Str.drop (String.length a + k) (a ++ b) = Str.drop k b.
Proof. induction a as [|x a IH]; simpl; [reflexivity | exact IH]. Qed.

Lemma drop_0 (s : string) : Str.drop 0 s = s.
Proof. now destruct s. Qed.

Lemma drop_length_append (a b : string) :
  Str.drop (String.length a) (a ++ b) = b.
Proof.
  rewrite <- (Nat.add_0_r (String.length a)), drop_append. apply drop_0.
Qed.

Lemma find_split_eq (sep s : string) :
  Str.find_split sep s =
  if String.prefix sep s
  then Some (EmptyString, Str.drop (String.length sep) s)
  else match s with
       | EmptyString => None
       | String c s' =>
           match Str.find_split sep s' with
           | Some (pre, post) => Some (String c pre, post)
           | None => None
           end
       end.
Proof. destruct s; reflexivity. Qed.

(** What [find_split] returns: the separator stands between the two
    parts, and it does not occur at any earlier index. *)
Lemma find_split_spec (sep : string) :
  forall s pre post,
    Str.find_split sep s = Some (pre, post) ->
    s = pre ++ sep ++ post /\
    forall i, i < String.length pre -> occurs_at sep i s = false.
Proof.
  induction s as [|c s IH]; intros pre post H.
  - rewrite find_split_eq in H.
    destruct (String.prefix sep "") eqn:P; [|discriminate].
    injection H as <- <-. split; [|simpl; lia].
    simpl. now apply prefix_drop.
  - rewrite find_split_eq in H.
    destruct (String.prefix sep (String c s)) eqn:P.
    + injection H as <- <-. split; [|simpl; lia].
      simpl. now apply prefix_drop.
    + destruct (Str.find_split sep s) as [[pre' post']|] eqn:F; [|discriminate].
      injection H as <- <-.
      destruct (IH _ _ eq_refl) as [E first]. split.
      * simpl. now f_equal.
      * intros [|i] Hi; unfold occurs_at; simpl.
        -- exact P.
        -- apply first. simpl in Hi. lia.
Qed.

(** [find_split] fails only when the separator occurs nowhere. *)
Lemma find_split_none (sep : string) :
  forall s, Str.find_split sep s = None ->
            forall pre post, s <> pre ++ sep ++ post.
Proof.
  induction s as [|c s IH]; intros H pre post E.
  - rewrite find_split_eq in H.
    destruct (String.prefix sep "") eqn:P; [discriminate|].
    destruct pre; simpl in E; [|discriminate].
    rewrite E, prefix_append in P. discriminate.
  - rewrite find_split_eq in H.
    destruct (String.prefix sep (String c s)) eqn:P; [discriminate|].
    destruct (Str.find_split sep s) as [[? ?]|] eqn:F; [discriminate|].
    destruct pre as [|x pre]; simpl in E.
    + rewrite E, prefix_append in P. discriminate.
    + injection E as _ E. exact (IH eq_refl _ _ E).
Qed.

Lemma find_split_some (sep pre post : string) :
  exists pre' post', Str.find_split sep (pre ++ sep ++ post) = Some (pre', post').
Proof.
  destruct (Str.find_split sep (pre ++ sep ++ post)) as [[a b]|] eqn:F.
  - now exists a, b.
  - now elim (find_split_none _ _ F pre post).
Qed.

Lemma mem_In (x : string) (l : list string) : Str.mem x l = true <-> In x l.
Proof.
  unfold Str.mem. rewrite existsb_exists. split.
  - intros (y & Hy & E). apply String.eqb_eq in E. now subst.
  - intros H. exists x. split; [assumption | apply String.eqb_refl].
Qed.

Lemma mem_not_In (x : string) (l : list string) :
  Str.mem x l = false <-> ~ In x l.
Proof.
  rewrite <- mem_In. destruct (Str.mem x l); split; congruence.
Qed.

(** Counting the blank marker. *)

Lemma has_char_append (x : ascii) (a b : string) :
  Str.has_char x (a ++ b) = Str.has_char x a || Str.has_char x b.
Proof.
  induction a as [|c a IH]; simpl; [reflexivity|].
  now rewrite IH, orb_assoc.
Qed.

Lemma prefix_cons (x c : ascii) (p s : string) :
  String.prefix (String x p) (String c s) =
  if ascii_dec x c then String.prefix p s else false.
Proof. reflexivity. Qed.

Lemma prefix_blank_no_underscore (c : ascii) (s : string) :
  Ascii.eqb "_" c = false -> String.prefix blank (String c s) = false.
Proof.
  intros H. unfold blank. rewrite prefix_cons.
  destruct (ascii_dec "_" c) as [E|_]; [|reflexivity].
  subst c. discriminate.
Qed.

Lemma count_blank_none (s : string) :
  Str.has_char "_" s = false -> Str.count_from blank s 0 = 0.
Proof.
  induction s as [|c s IH]; [reflexivity|].
  cbn [Str.has_char Str.count_from].
  intros H. apply orb_false_elim in H as [Hc Hs].
  rewrite prefix_blank_no_underscore by assumption.
  now apply IH.
Qed.

Lemma count_from_skip (sub a s : string) :
  Str.count_from sub (a ++ s) (String.length a) = Str.count_from sub s 0.
Proof. induction a as [|x a IH]; simpl; [now destruct s | exact IH]. Qed.

Lemma count_blank_here (post : string) :
  Str.count_from blank (blank ++ post) 0 = S (Str.count_from blank post 0).
Proof.
  pose proof (prefix_append blank post) as P.
  change (blank ++ post) with (String "_" ("____" ++ post)) in *.
  cbn [Str.count_from]. rewrite P.
  apply (f_equal S). exact (count_from_skip blank "____" post).
Qed.

(** With no underscore around it the marker is counted exactly once. *)
Lemma count_blank_once (pre post : string) :
  Str.has_char "_" pre = false -> Str.has_char "_" post = false ->
  Str.count (pre ++ blank ++ post) blank = 1.
Proof.
  unfold Str.count. intros Hpre Hpost.
  induction pre as [|c pre IH].
  - change ("" ++ blank ++ post) with (blank ++ post).
    now rewrite count_blank_here, count_blank_none.
  - simpl in Hpre. apply orb_false_elim in Hpre as [Hc Hpre].
    change (String c pre ++ blank ++ post)
      with (String c (pre ++ blank ++ post)).
    cbn [Str.count_from].
    rewrite prefix_blank_no_underscore by assumption.
    now apply IH.
Qed.

(** The marker is always counted at least once. *)
Lemma count_blank_pos (pre post : string) :
  1 <= Str.count (pre ++ blank ++ post) blank.
Proof.
  unfold Str.count. induction pre as [|c pre IH].
  - change ("" ++ blank ++ post) with (blank ++ post).
    rewrite count_blank_here. lia.
  - change (String c pre ++ blank ++ post)
      with (String c (pre ++ blank ++ post)).
    cbn [Str.count_from].
    destruct (String.prefix blank (String c (pre ++ blank ++ post))); [lia|].
    exact IH.
Qed.

End StrFacts.

(** ** Counting the blank marker across runs of underscores *)

Module BlankFacts.

Lemma underscores_add (a b : nat) :
  underscores (a + b) = underscores a ++ underscores b.
Proof. induction a as [|a IH]; cbn; [reflexivity | now rewrite IH]. Qed.

Lemma underscores_length (k : nat) : String.length (underscores k) = k.
Proof. induction k as [|k IH]; cbn; [reflexivity | now rewrite IH]. Qed.

(** Every string is a run of underscores followed by a text that does not
    begin with one. *)
Lemma leading_run (s : string) :
  exists k t, s = underscores k ++ t /\ starts_underscore t = false.
Proof.
  induction s as [|c s (k & t & E & T)].
  - now exists 0, EmptyString.
  - destruct (Ascii.eqb "_" c) eqn:C.
    + apply Ascii.eqb_eq in C. subst c. exists (S k), t. cbn. now rewrite <- E.
    + exists 0, (String c s). now split.
Qed.

Lemma prefix_underscore (p s : string) :
  String.prefix (String "_" p) (String "_" s) = String.prefix p s.
Proof.
  rewrite StrFacts.prefix_cons.
  destruct (ascii_dec "_" "_") as [_|N]; [reflexivity | now elim N].
Qed.

Lemma prefix_no_underscore (p t : string) :
  starts_underscore t = false -> String.prefix (String "_" p) t = false.
Proof.
  destruct t as [|c t]; [reflexivity|]. cbn [starts_underscore]. intros C.
  rewrite StrFacts.prefix_cons.
  destruct (ascii_dec "_" c) as [E|_]; [|reflexivity].
  subst c. discriminate C.
Qed.

(** A run of fewer than five underscores does not hold the marker. *)
Lemma prefix_short_run (r : nat) (t : string) :
  r < 5 -> starts_underscore t = false ->
  String.prefix blank (underscores r ++ t) = false.
Proof.
  intros R T. unfold blank.
  do 5 (destruct r as [|r];
        [cbn [underscores append];
         rewrite ?prefix_underscore; now apply prefix_no_underscore|]).
  lia.
Qed.

Lemma count_short_run (r : nat) (t : string) :
  r < 5 -> starts_underscore t = false ->
  Str.count_from blank (underscores r ++ t) 0 = Str.count_from blank t 0.
Proof.
  induction r as [|r IH]; intros R T; [reflexivity|].
  pose proof (prefix_short_run (S r) t R T) as P.
  cbn [underscores append] in *. cbn [Str.count_from]. rewrite P.
  apply IH; [lia | exact T].
Qed.

(** A run of [5 * q + r] underscores, [r < 5], holds the marker [q]
    times. *)
Lemma count_run (q r : nat) (t : string) :
  r < 5 -> starts_underscore t = false ->
  Str.count_from blank (underscores (5 * q + r) ++ t) 0
  = q + Str.count_from blank t 0.
Proof.
  intros R T. induction q as [|q IH].
  - cbn [Nat.mul Nat.add]. now apply count_short_run.
  - replace (5 * S q + r) with (5 + (5 * q + r)) by lia.
    rewrite underscores_add, StrFacts.append_assoc.
    change (underscores 5) with blank.
    rewrite StrFacts.count_blank_here, IH. reflexivity.
Qed.

Lemma count_run_any (k : nat) (t : string) :
  starts_underscore t = false ->
  Str.count_from blank (underscores k ++ t) 0
  = k / 5 + Str.count_from blank t 0.
Proof.
  intros T. rewrite (Nat.div_mod_eq k 5) at 1.
  apply count_run; [|exact T]. apply Nat.mod_upper_bound. discriminate.
Qed.

Lemma count_skip_char (c : ascii) (s : string) :
  Ascii.eqb "_" c = false ->
  Str.count_from blank (String c s) 0 = Str.count_from blank s 0.
Proof.
  intros C. cbn [Str.count_from].
  now rewrite StrFacts.prefix_blank_no_underscore.
Qed.

Lemma append_nil_r (s : string) : s ++ EmptyString = s.
Proof. induction s as [|c s IH]; cbn; [reflexivity | now rewrite IH]. Qed.

(** The marker put at the end of a run of underscores. *)
Lemma count_insert_run (k : nat) (post : string) :
  Str.count_from blank (underscores k ++ blank ++ post) 0
  = S (Str.count_from blank (underscores k ++ post) 0).
Proof.
  destruct (leading_run post) as (b & t & -> & T).
  change blank with (underscores 5).
  rewrite <- !StrFacts.append_assoc, <- !underscores_add.
  rewrite !count_run_any by exact T.
  replace (k + 5 + b) with (k + b + 1 * 5) by lia.
  rewrite Nat.div_add by discriminate. lia.
Qed.

(** Putting the marker into a text adds exactly one to the count of the
    marker, wherever it is put. *)
Lemma count_insert_blank :
  forall n pre, String.length pre <= n ->
  forall post,
    Str.count (pre ++ blank ++ post) blank = S (Str.count (pre ++ post) blank).
Proof.
  unfold Str.count.
  induction n as [|n IH]; intros pre Hn post;
    destruct (leading_run pre) as (k & t & -> & T);
    (destruct t as [|c t];
     [rewrite append_nil_r; apply count_insert_run|]);
    rewrite StrFacts.length_append, underscores_length in Hn;
    cbn [String.length] in Hn; [lia|].
  rewrite !StrFacts.append_assoc.
  change (String c t ++ blank ++ post) with (String c (t ++ blank ++ post)).
  change (String c t ++ post) with (String c (t ++ post)).
  rewrite !count_run_any by exact T.
  cbn [starts_underscore] in T. rewrite !count_skip_char by exact T.
  rewrite IH by lia. lia.
Qed.

(** The count of the marker in a question text. *)
Lemma count_blanked (pre post : string) :
  Str.count (pre ++ blank ++ post) blank = S (Str.count (pre ++ post) blank).
Proof. now apply (count_insert_blank (String.length pre)). Qed.

End BlankFacts.

(** ** The de-duplication loop *)

Section DedupFacts.

Variable lower : string -> string.

Lemma dedup_In :
  forall pool seen unique_nouns,
    (forall x, In x seen <-> In x unique_nouns) ->
    forall x, In x (dedup lower pool seen unique_nouns)
              <-> In x unique_nouns \/ In x (map lower pool).
Proof.
  induction pool as [|noun rest IH]; intros seen uniq Hseen x; cbn [dedup map In].
  - tauto.
  - destruct (Str.mem (lower noun) seen) eqn:M; cbn [negb].
    + apply StrFacts.mem_In, Hseen in M.
      rewrite (IH seen uniq Hseen). split; [tauto|].
      intros [H|[<-|H]]; tauto.
    + rewrite (IH (lower noun :: seen) (uniq ++ [lower noun])%list).
      * rewrite in_app_iff. cbn [In]. tauto.
      * intros y. rewrite in_app_iff. cbn [In]. rewrite Hseen. tauto.
Qed.

(** The entries appended by the loop do not depend on what was kept
    before, only on what was seen. *)
Lemma dedup_acc :
  forall pool seen unique_nouns,
    dedup lower pool seen unique_nouns
    = (unique_nouns ++ dedup lower pool seen [])%list.
Proof.
  induction pool as [|noun rest IH]; intros seen uniq; cbn [dedup].
  - now rewrite app_nil_r.
  - destruct (negb (Str.mem (lower noun) seen)); [|apply IH].
    rewrite (IH _ (uniq ++ [lower noun])%list), (IH _ ([] ++ [lower noun])%list).
    now rewrite <- app_assoc.
Qed.

Lemma dedup_fresh :
  forall pool seen y, In y (dedup lower pool seen []) -> ~ In y seen.
Proof.
  induction pool as [|noun rest IH]; intros seen y; cbn [dedup]; [intros []|].
  destruct (Str.mem (lower noun) seen) eqn:M; cbn [negb]; [apply IH|].
  cbn [app]. rewrite (dedup_acc rest (lower noun :: seen) [lower noun]).
  cbn [app In]. intros [<-|H].
  - now apply StrFacts.mem_not_In.
  - intros N. apply (IH _ _ H). now right.
Qed.

Lemma dedup_distinct :
  forall pool seen, NoDup (dedup lower pool seen []).
Proof.
  induction pool as [|noun rest IH]; intros seen; cbn [dedup]; [constructor|].
  destruct (negb (Str.mem (lower noun) seen)); [|apply IH].
  cbn [app]. rewrite (dedup_acc rest (lower noun :: seen) [lower noun]).
  cbn [app]. constructor; [|apply IH].
  intros H. apply (dedup_fresh _ _ _ H). now left.
Qed.

Lemma mem_ext (x : string) (l l' : list string) :
  (forall y, In y l <-> In y l') -> Str.mem x l = Str.mem x l'.
Proof.
  intros E. destruct (Str.mem x l') eqn:M.
  - apply StrFacts.mem_In. apply E. now apply StrFacts.mem_In.
  - apply StrFacts.mem_not_In. rewrite E. now apply StrFacts.mem_not_In.
Qed.

Lemma dedup_seen_ext :
  forall pool seen seen',
    (forall y, In y seen <-> In y seen') ->
    dedup lower pool seen [] = dedup lower pool seen' [].
Proof.
  induction pool as [|noun rest IH]; intros seen seen' E; cbn [dedup];
    [reflexivity|].
  rewrite (mem_ext _ _ _ E).
  destruct (negb (Str.mem (lower noun) seen')); [|now apply IH].
  cbn [app].
  rewrite (dedup_acc rest (lower noun :: seen) [lower noun]),
          (dedup_acc rest (lower noun :: seen') [lower noun]).
  f_equal. apply IH. intros y. cbn [In]. now rewrite E.
Qed.

Lemma filter_fresh (x : string) (l : list string) :
  ~ In x l -> filter (fun y => negb (String.eqb y x)) l = l.
Proof.
  induction l as [|a l IH]; intros N; cbn [filter]; [reflexivity|].
  destruct (String.eqb a x) eqn:E; cbn [negb].
  - apply String.eqb_eq in E. elim N. now left.
  - f_equal. apply IH. intros H. apply N. now right.
Qed.

Lemma dedup_seen_one :
  forall pool seen x,
    ~ In x seen ->
    dedup lower pool (x :: seen) []
    = filter (fun y => negb (String.eqb y x)) (dedup lower pool seen []).
Proof.
  induction pool as [|noun rest IH]; intros seen x N; cbn [dedup];
    [reflexivity|].
  destruct (String.eqb (lower noun) x) eqn:E.
  - apply String.eqb_eq in E. subst x.
    replace (Str.mem (lower noun) (lower noun :: seen)) with true
      by (symmetry; apply StrFacts.mem_In; now left).
    replace (Str.mem (lower noun) seen) with false
      by (symmetry; now apply StrFacts.mem_not_In).
    cbn [negb app]. rewrite (dedup_acc rest (lower noun :: seen) [lower noun]).
    cbn [app filter]. rewrite String.eqb_refl. cbn [negb]. symmetry. apply filter_fresh.
    intros H. apply (dedup_fresh _ _ _ H). now left.
  - apply String.eqb_neq in E.
    assert (M : Str.mem (lower noun) (x :: seen) = Str.mem (lower noun) seen).
    { destruct (Str.mem (lower noun) seen) eqn:M.
      - apply StrFacts.mem_In. right. now apply StrFacts.mem_In.
      - apply StrFacts.mem_not_In. intros [H|H]; [now elim E|].
        now apply StrFacts.mem_not_In in M. }
    rewrite M. destruct (Str.mem (lower noun) seen) eqn:Ms; cbn [negb].
    + now apply IH.
    + cbn [app].
      rewrite (dedup_acc rest (lower noun :: x :: seen) [lower noun]),
              (dedup_acc rest (lower noun :: seen) [lower noun]).
      cbn [app filter].
      replace (String.eqb (lower noun) x) with false
        by (symmetry; now apply String.eqb_neq).
      cbn [negb]. f_equal.
      rewrite (dedup_seen_ext rest (lower noun :: x :: seen)
                              (x :: lower noun :: seen))
        by (intros y; cbn [In]; tauto).
      apply IH. intros [H|H]; [now elim E | now elim N].
Qed.

(** X2: the vocabulary is in order of first occurrence: it starts with the
    lower-case form of the first noun, followed by the vocabulary of the
    remaining nouns without that form. *)
Theorem vocabulary_first_occurrence (noun : string) (rest : list string) :
  dedup lower (noun :: rest) [] []
  = lower noun :: filter (fun y => negb (String.eqb y (lower noun)))
                         (dedup lower rest [] []).
Proof.
  cbn [dedup Str.mem existsb negb app].
  rewrite (dedup_acc rest [lower noun] [lower noun]). cbn [app]. f_equal.
  apply dedup_seen_one. intros [].
Qed.

End DedupFacts.

(** ** The generator *)

Section GeneratorFacts.

Variable sent_tokenize : string -> list string.
Variable word_tokenize : string -> list string.
Variable pos_tag : list string -> list (string * string).
Variable stop_words : list string.
Variable lower : string -> string.
Variable isalpha : string -> bool.
Variable isspace : ascii -> bool.
Variable rng : Type.
Variable random_sample : list string -> nat -> rng -> list string * rng.
Variable random_shuffle : list string -> rng -> list string * rng.

Local Abbreviation make := (make_mcq lower rng random_sample random_shuffle).
Local Abbreviation loop :=
  (sentence_loop word_tokenize pos_tag lower rng random_sample random_shuffle).
Local Abbreviation from :=
  (generate_from word_tokenize pos_tag lower rng random_sample random_shuffle).
Local Abbreviation generate :=
  (generate_mcq_questions sent_tokenize word_tokenize pos_tag stop_words
     lower isalpha isspace rng random_sample random_shuffle).
Local Abbreviation pool_of :=
  (unique_nouns_of word_tokenize pos_tag stop_words lower isalpha).
Local Abbreviation eligible := (first_eligible lower).
Local Abbreviation cleaned := (cleaned_text isspace).
Local Abbreviation draw := (draw lower rng random_sample).
Local Abbreviation made_from :=
  (made_from word_tokenize pos_tag lower rng random_sample random_shuffle).

Lemma make_mcq_ok (unique_nouns : list string) (sentence w : string)
      (question_id : Z) (g : rng) (q : MCQ) (g' : rng) :
  make unique_nouns sentence w question_id g = Ok (q, g') ->
  exists pre post,
    Str.find_split w sentence = Some (pre, post)
    /\ q = Build_MCQ question_id (pre ++ blank ++ post)
             (fst (random_shuffle (fst (draw unique_nouns w g) ++ [w])%list
                                  (snd (draw unique_nouns w g))))
             w
    /\ g' = snd (random_shuffle (fst (draw unique_nouns w g) ++ [w])%list
                                (snd (draw unique_nouns w g))).
Proof.
  unfold make_mcq, split_maxsplit1, draw.
  destruct (String.eqb w "") eqn:Ew; [discriminate|].
  destruct (Str.find_split w sentence) as [[pre post]|]; [|discriminate].
  cbn [bind index nth_error]. intros H. exists pre, post.
  split; [reflexivity|].
  destruct (filter _ unique_nouns) as [|d ds] eqn:EF.
  - cbn [fst snd] in *.
    destruct (random_shuffle ([] ++ [w])%list g) as [o g2].
    injection H as <- <-. now split.
  - destruct (random_sample (d :: ds) _ g) as [ds' g1].
    cbn [fst snd] in *.
    destruct (random_shuffle (ds' ++ [w])%list g1) as [o g2].
    injection H as <- <-. now split.
Qed.

(** [make_mcq] raises exactly when the answer word is not in the sentence. *)
Lemma make_mcq_raises (unique_nouns : list string) (sentence w : string)
      (question_id : Z) (g : rng) :
  w <> EmptyString ->
  Str.find_split w sentence = None ->
  make unique_nouns sentence w question_id g = Raise IndexError.
Proof.
  intros Hw F. unfold make_mcq, split_maxsplit1.
  apply String.eqb_neq in Hw. now rewrite Hw, F.
Qed.

Lemma loop_eq (unique_nouns : list string) (n : Z) (sentence : string)
      (rest : list string) (acc : list MCQ) (qid : Z) (g : rng) :
  loop unique_nouns n (sentence :: rest) acc qid g =
  if (Z.of_nat (List.length acc) >=? n)%Z then Ok (acc, g)
  else match eligible unique_nouns (pos_tag (word_tokenize sentence)) with
       | Some w =>
           if String.eqb w EmptyString
           then loop unique_nouns n rest acc qid g
           else r <- make unique_nouns sentence w qid g ;;
                loop unique_nouns n rest (acc ++ [fst r])%list (qid + 1)%Z (snd r)
       | None => loop unique_nouns n rest acc qid g
       end.
Proof.
  cbn [sentence_loop].
  destruct (eligible unique_nouns (pos_tag (word_tokenize sentence)));
    reflexivity.
Qed.

(** The loop only appends, and every record it appends is made from one
    of the sentences, with the next identifier. *)
Lemma loop_appends (unique_nouns : list string) (n : Z) :
  forall sentences acc qid g res g',
    loop unique_nouns n sentences acc qid g = Ok (res, g') ->
    exists new,
      res = (acc ++ new)%list
      /\ Forall (fun q => exists sentence,
                     In sentence sentences /\ made_from unique_nouns sentence q)
                new
      /\ map id new = map (fun k => (qid + Z.of_nat k)%Z) (seq 0 (List.length new))
      /\ (Z.of_nat (List.length acc) <= Z.max 0 n ->
          Z.of_nat (List.length res) <= Z.max 0 n)%Z.
Proof.
  induction sentences as [|sentence rest IH]; intros acc qid g res g' H.
  - injection H as <- <-. exists []. rewrite app_nil_r. now repeat split.
  - rewrite loop_eq in H.
    assert (Skip : loop unique_nouns n rest acc qid g = Ok (res, g') ->
                   exists new,
                     res = (acc ++ new)%list
                     /\ Forall (fun q => exists s,
                                    In s (sentence :: rest)
                                    /\ made_from unique_nouns s q) new
                     /\ map id new
                        = map (fun k => (qid + Z.of_nat k)%Z)
                              (seq 0 (List.length new))
                     /\ (Z.of_nat (List.length acc) <= Z.max 0 n ->
                         Z.of_nat (List.length res) <= Z.max 0 n)%Z).
    { intros H'. destruct (IH _ _ _ _ _ H') as (new & E & F & I & L).
      exists new. repeat split; try assumption.
      eapply Forall_impl; [|exact F].
      intros q (s & Hs & M). exists s. split; [now right | exact M]. }
    destruct (Z.of_nat (List.length acc) >=? n)%Z eqn:Full.
    { injection H as <- <-. exists []. rewrite app_nil_r. now repeat split. }
    destruct (eligible unique_nouns (pos_tag (word_tokenize sentence)))
      as [w|] eqn:El; [|now apply Skip].
    destruct (String.eqb w "") eqn:Ew; [now apply Skip|].
    destruct (make unique_nouns sentence w qid g) as [[q g1]|e] eqn:M;
      [|discriminate].
    cbn [bind fst snd] in H.
    destruct (IH _ _ _ _ _ H) as (new & E & F & I & L).
    destruct (make_mcq_ok _ _ _ _ _ _ _ M) as (pre & post & Fs & Eq & Eg).
    exists (q :: new). repeat split.
    + now rewrite E, <- app_assoc.
    + constructor.
      * exists sentence. split; [now left|].
        exists pre, post, g. subst q. cbn [answer question options].
        apply String.eqb_neq in Ew. now repeat split.
      * eapply Forall_impl; [|exact F].
        intros q' (s & Hs & M'). exists s. split; [now right | exact M'].
    + cbn [map List.length seq]. f_equal.
      * subst q. cbn [id]. lia.
      * rewrite I, <- seq_shift, map_map. apply map_ext. intros k. lia.
    + intros _. apply L. rewrite length_app. cbn [List.length].
      rewrite Z.geb_leb in Full. apply Z.leb_gt in Full. lia.
Qed.

(** Once the requested count is reached no further sentence is read. *)
Lemma loop_full (unique_nouns : list string) (n : Z) (sentences : list string)
      (acc : list MCQ) (qid : Z) (g : rng) :
  (n <= Z.of_nat (List.length acc))%Z ->
  loop unique_nouns n sentences acc qid g = Ok (acc, g).
Proof.
  intros H. destruct sentences as [|s rest]; [reflexivity|].
  rewrite loop_eq.
  destruct (Z.of_nat (List.length acc) >=? n)%Z eqn:Full; [reflexivity|].
  rewrite Z.geb_leb in Full. apply Z.leb_gt in Full. lia.
Qed.

(** The de-duplication loop never drops an entry it has kept. *)
Lemma dedup_keeps :
  forall pool seen unique_nouns x,
    In x unique_nouns -> In x (dedup lower pool seen unique_nouns).
Proof.
  induction pool as [|noun rest IH]; intros seen uniq x H; cbn [dedup].
  - exact H.
  - destruct (negb (Str.mem (lower noun) seen)); apply IH;
      [apply in_or_app; now left | exact H].
Qed.

(** The vocabulary: distinct entries, each the lower-case form of a word. *)
Lemma dedup_spec :
  forall pool seen unique_nouns,
    (forall x, In x seen <-> In x unique_nouns) ->
    NoDup unique_nouns ->
    (forall x, In x unique_nouns -> exists w, x = lower w) ->
    NoDup (dedup lower pool seen unique_nouns)
    /\ (forall x, In x (dedup lower pool seen unique_nouns) -> exists w, x = lower w)
    /\ (pool <> [] -> dedup lower pool seen unique_nouns <> []).
Proof.
  induction pool as [|noun rest IH]; intros seen uniq Hseen Hnd Hlow.
  - cbn [dedup]. repeat split; try assumption. congruence.
  - cbn [dedup].
    destruct (Str.mem (lower noun) seen) eqn:M; cbn [negb].
    + destruct (IH seen uniq Hseen Hnd Hlow) as (A & B & C).
      repeat split; try assumption. intros _ E.
      apply StrFacts.mem_In, Hseen in M.
      apply (dedup_keeps rest seen) in M. now rewrite E in M.
    + apply StrFacts.mem_not_In in M.
      assert (Hseen' : forall x, In x (lower noun :: seen)
                                 <-> In x (uniq ++ [lower noun])%list).
      { intros x. rewrite in_app_iff. cbn [In]. rewrite Hseen. tauto. }
      assert (Hnd' : NoDup (uniq ++ [lower noun])%list).
      { apply NoDup_app; [assumption | repeat constructor; auto | ].
        intros x Hx [<-|[]]. apply M, Hseen, Hx. }
      assert (Hlow' : forall x, In x (uniq ++ [lower noun])%list ->
                                exists w, x = lower w).
      { intros x Hx. apply in_app_or in Hx as [Hx|[<-|[]]];
          [now apply Hlow | now exists noun]. }
      destruct (IH _ _ Hseen' Hnd' Hlow') as (A & B & C).
      repeat split; try assumption. intros _ E.
      assert (In (lower noun) (uniq ++ [lower noun])%list) as I
          by (apply in_or_app; right; now left).
      apply (dedup_keeps rest (lower noun :: seen)) in I. now rewrite E in I.
Qed.

Lemma pool_NoDup (text : string) : NoDup (pool_of text).
Proof.
  unfold unique_nouns_of.
  apply dedup_spec; [tauto | constructor | intros x []].
Qed.

Lemma pool_lower (text x : string) :
  In x (pool_of text) -> exists w, x = lower w.
Proof.
  unfold unique_nouns_of.
  apply dedup_spec; [tauto | constructor | intros y []].
Qed.

(** The vocabulary is empty exactly when no token passes the noun filter. *)
Lemma pool_empty_iff (text : string) :
  pool_of text = [] <->
  noun_pool stop_words lower isalpha (pos_tag (word_tokenize text)) = [].
Proof.
  unfold unique_nouns_of. split.
  - intros E.
    destruct (noun_pool stop_words lower isalpha (pos_tag (word_tokenize text)))
      as [|x l] eqn:P; [reflexivity|].
    exfalso. revert E.
    apply dedup_spec; [tauto | constructor | intros y [] | discriminate].
  - intros ->. reflexivity.
Qed.

(** What the whole function returns, in terms of the loop. *)
Lemma generate_made (text : string) (n : Z) (g : rng) (res : list MCQ) (g' : rng) :
  generate text n g = Ok (res, g') ->
  Forall (fun q => exists sentence,
              In sentence (sent_tokenize (cleaned text))
              /\ made_from (pool_of (cleaned text)) sentence q) res
  /\ map id res = map Z.of_nat (seq 0 (List.length res))
  /\ (Z.of_nat (List.length res) <= Z.max 0 n)%Z.
Proof.
  unfold generate_mcq_questions, generate_from.
  destruct (pool_of (cleaned text)) as [|x l] eqn:P.
  - intros H. injection H as <- <-. repeat split; [constructor | simpl; lia].
  - intros H. apply loop_appends in H as (new & -> & F & I & L).
    cbn [app]. repeat split; [exact F | | apply L; simpl; lia].
    rewrite I. apply map_ext. intros k. lia.
Qed.

(** Sentences after the one that completes the count are not read. *)
Lemma loop_stops (unique_nouns : list string) (n : Z) :
  forall pre post acc qid g res1 g1,
    loop unique_nouns n pre acc qid g = Ok (res1, g1) ->
    (n <= Z.of_nat (List.length res1))%Z ->
    loop unique_nouns n (pre ++ post)%list acc qid g = Ok (res1, g1).
Proof.
  induction pre as [|s rest IH]; intros post acc qid g res1 g1 H Hn.
  - injection H as <- <-. now apply loop_full.
  - cbn [app]. rewrite loop_eq in *.
    destruct (Z.of_nat (List.length acc) >=? n)%Z; [exact H|].
    destruct (eligible unique_nouns (pos_tag (word_tokenize s))) as [w|];
      [|now apply IH].
    destruct (String.eqb w ""); [now apply IH|].
    destruct (make unique_nouns s w qid g) as [[q g2]|e]; [|discriminate].
    cbn [bind fst snd] in *. now apply IH.
Qed.

(** The function returns whenever each chosen answer word occurs in its
    sentence, which is all that [parts[1]] needs. *)
Lemma loop_returns (unique_nouns : list string) (n : Z) :
  forall sentences acc qid g,
    (forall s w, In s sentences ->
                 eligible unique_nouns (pos_tag (word_tokenize s)) = Some w ->
                 w <> EmptyString -> Str.find_split w s <> None) ->
    exists res g', loop unique_nouns n sentences acc qid g = Ok (res, g').
Proof.
  induction sentences as [|s rest IH]; intros acc qid g Hocc.
  - now exists acc, g.
  - assert (Hrest : forall s' w, In s' rest ->
                eligible unique_nouns (pos_tag (word_tokenize s')) = Some w ->
                w <> EmptyString -> Str.find_split w s' <> None)
      by (intros s' w Hs; apply Hocc; now right).
    rewrite loop_eq.
    destruct (Z.of_nat (List.length acc) >=? n)%Z; [now exists acc, g|].
    destruct (eligible unique_nouns (pos_tag (word_tokenize s))) as [w|] eqn:El;
      [|now apply IH].
    destruct (String.eqb w "") eqn:Ew; [now apply IH|].
    apply String.eqb_neq in Ew.
    pose proof (Hocc s w (or_introl eq_refl) El Ew) as F.
    unfold make_mcq, split_maxsplit1.
    apply String.eqb_neq in Ew. rewrite Ew.
    destruct (Str.find_split w s) as [[a b]|]; [|now elim F].
    cbn [bind index nth_error].
    destruct (match filter _ unique_nouns with [] => _ | _ :: _ => _ end)
      as [ds g1].
    destruct (random_shuffle (ds ++ [w])%list g1) as [o g2].
    cbn [bind fst snd]. now apply IH.
Qed.

Lemma generate_returns (text : string) (n : Z) (g : rng) :
  (forall s w,
      In s (sent_tokenize (cleaned text)) ->
      eligible (pool_of (cleaned text)) (pos_tag (word_tokenize s)) = Some w ->
      w <> EmptyString -> Str.find_split w s <> None) ->
  exists res g', generate text n g = Ok (res, g').
Proof.
  intros Hocc. unfold generate_mcq_questions, generate_from.
  destruct (pool_of (cleaned text)) as [|x l] eqn:P.
  - now exists [], g.
  - now apply loop_returns.
Qed.

(** *** The contract of the random module

    [random.sample] returns [k] elements taken at distinct positions of the
    population; [random.shuffle] rearranges its argument. *)

Hypothesis sample_spec :
  forall population k g,
    k <= List.length population ->
    List.length (fst (random_sample population k g)) = k
    /\ exists rest,
         Permutation population (fst (random_sample population k g) ++ rest)%list.

Hypothesis shuffle_spec :
  forall x g, Permutation x (fst (random_shuffle x g)).

(** The distractors: at most three, at distinct positions of the
    vocabulary without the lower-case form of the answer. *)
Lemma draw_spec (unique_nouns : list string) (w : string) (g : rng) :
  List.length (fst (draw unique_nouns w g)) <= 3
  /\ exists rest,
       Permutation
         (filter (fun n => negb (String.eqb n (lower w))) unique_nouns)
         (fst (draw unique_nouns w g) ++ rest)%list.
Proof.
  unfold draw.
  destruct (filter _ unique_nouns) as [|d ds] eqn:F.
  - split; [simpl; lia | now exists []].
  - destruct (sample_spec (d :: ds) (Nat.min 3 (List.length (d :: ds))) g)
      as [L P]; [lia|].
    split; [rewrite L; lia | exact P].
Qed.

Lemma made_options (unique_nouns : list string) (sentence : string) (q : MCQ) :
  made_from unique_nouns sentence q ->
  exists distractors rest,
    Permutation (distractors ++ [answer q])%list (options q)
    /\ List.length distractors <= 3
    /\ Permutation
         (filter (fun n => negb (String.eqb n (lower (answer q)))) unique_nouns)
         (distractors ++ rest)%list.
Proof.
  intros (pre & post & g & _ & _ & _ & _ & O).
  destruct (draw_spec unique_nouns (answer q) g) as (L & rest & P).
  exists (fst (draw unique_nouns (answer q) g)), rest.
  rewrite O. repeat split; [apply shuffle_spec | exact L | exact P].
Qed.

(** *** The generated records *)

(** C1: in every generated question record the answer, in its original
    casing, is one of the options, and there are between one and four
    options: the answer and at most three distractors. *)
Theorem answer_among_options (text : string) (n : Z) (g : rng)
        (res : list MCQ) (g' : rng) (q : MCQ) :
  generate text n g = Ok (res, g') ->
  In q res ->
  In (answer q) (options q) /\ 1 <= List.length (options q) <= 4.
Proof.
  intros H Hq. apply generate_made in H as (F & _ & _).
  rewrite Forall_forall in F. destruct (F q Hq) as (sentence & _ & M).
  destruct (made_options _ _ _ M) as (ds & rest & P & L & _).
  split.
  - apply (Permutation_in _ P), in_or_app. right. now left.
  - rewrite <- (Permutation_length P), length_app. simpl. lia.
Qed.

(** C3, as the code has it: the question text is the sentence with the
    first literal occurrence of the answer word replaced by the blank
    marker.  The answer
    word occurs at no earlier index, the text before it and the text after
    it are kept as they are, and so every later occurrence of the answer
    word (one that starts at or after the end of the first, as [str.split]
    and [str.count] find them) is still there in the question text. *)
Theorem only_first_occurrence_blanked (text : string) (n : Z) (g : rng)
        (res : list MCQ) (g' : rng) (q : MCQ) :
  generate text n g = Ok (res, g') ->
  In q res ->
  exists sentence pre post,
    In sentence (sent_tokenize (cleaned text))
    /\ sentence = pre ++ answer q ++ post
    /\ question q = pre ++ blank ++ post
    /\ (forall i, i < String.length pre -> occurs_at (answer q) i sentence = false)
    /\ (forall i, String.length pre + String.length (answer q) <= i ->
                  Str.drop (i + String.length blank - String.length (answer q))
                           (question q)
                  = Str.drop i sentence)
    /\ (forall i, String.length pre + String.length (answer q) <= i ->
                  occurs_at (answer q) i sentence = true ->
                  occurs_at (answer q)
                            (i + String.length blank - String.length (answer q))
                            (question q) = true).
Proof.
  intros H Hq. apply generate_made in H as (F & _ & _).
  rewrite Forall_forall in F. destruct (F q Hq) as (sentence & Hs & M).
  destruct M as (pre & post & g0 & _ & _ & Sp & Q & _).
  apply StrFacts.find_split_spec in Sp as [E first].
  assert (Keep : forall i,
             String.length pre + String.length (answer q) <= i ->
             Str.drop (i + String.length blank - String.length (answer q))
                      (question q)
             = Str.drop i sentence).
  { intros i Hi. rewrite Q, E.
    replace (i + String.length blank - String.length (answer q))
      with (String.length pre
            + (String.length blank
               + (i - String.length pre - String.length (answer q)))) by lia.
    replace i
      with (String.length pre
            + (String.length (answer q)
               + (i - String.length pre - String.length (answer q)))) at 2 by lia.
    now rewrite !StrFacts.drop_append. }
  exists sentence, pre, post. repeat split; try assumption.
  intros i Hi. unfold occurs_at. now rewrite Keep.
Qed.

(** C7: the identifiers of the returned records are 0, 1, ..., in the
    order of the records, hence pairwise distinct. *)
Theorem ids_contiguous (text : string) (n : Z) (g : rng)
        (res : list MCQ) (g' : rng) :
  generate text n g = Ok (res, g') ->
  map id res = map Z.of_nat (seq 0 (List.length res))
  /\ NoDup (map id res).
Proof.
  intros H. apply generate_made in H as (_ & I & _).
  split; [exact I|]. rewrite I.
  apply Finite.Injective_map_NoDup; [|apply seq_NoDup].
  intros a b. apply Nat2Z.inj.
Qed.

(** C8: with [num_questions] zero or negative the function returns the
    empty list for every text; no sentence is examined, so nothing can be
    raised and the random generator is left as it was. *)
Theorem no_questions_requested (text : string) (n : Z) (g : rng) :
  (n <= 0)%Z ->
  generate text n g = Ok ([], g).
Proof.
  intros Hn. unfold generate_mcq_questions, generate_from.
  destruct (pool_of (cleaned text)); [reflexivity|].
  now apply loop_full.
Qed.

(** C6: when the de-duplicated noun pool of the whole text is empty the
    function returns the empty list, as a normal result. *)
Theorem empty_vocabulary (text : string) (n : Z) (g : rng) :
  pool_of (cleaned text) = [] ->
  generate text n g = Ok ([], g).
Proof.
  intros E. unfold generate_mcq_questions, generate_from. now rewrite E.
Qed.

(** C2, as the code has it: the question text is the sentence with the
    first occurrence of the answer word replaced by the blank marker.  It
    holds the marker once more than the rest of the sentence does (the
    text before that occurrence followed by the text after it): exactly
    once if and only if that rest does not hold the marker. *)
Theorem blank_marker_count (text : string) (n : Z) (g : rng)
        (res : list MCQ) (g' : rng) (q : MCQ) :
  generate text n g = Ok (res, g') ->
  In q res ->
  exists sentence pre post,
    In sentence (sent_tokenize (cleaned text))
    /\ sentence = pre ++ answer q ++ post
    /\ (forall i, i < String.length pre ->
                  occurs_at (answer q) i sentence = false)
    /\ question q = pre ++ blank ++ post
    /\ Str.count (question q) blank = S (Str.count (pre ++ post) blank)
    /\ (Str.count (question q) blank = 1
        <-> Str.count (pre ++ post) blank = 0).
Proof.
  intros H Hq. apply generate_made in H as (F & _ & _).
  rewrite Forall_forall in F. destruct (F q Hq) as (sentence & Hs & M).
  destruct M as (pre & post & g0 & _ & _ & Sp & Q & _).
  apply StrFacts.find_split_spec in Sp as [E first].
  exists sentence, pre, post. rewrite Q, BlankFacts.count_blanked.
  repeat split; try assumption; lia.
Qed.

(** C4, as the code has it: the returned list has at most
    [max(0, num_questions)] records, and once the sentences read so far
    have produced [num_questions] records the function returns them
    without reading the sentences that follow. *)
Theorem length_bounded_and_stops (text : string) (n : Z) (g : rng) :
  (forall res g',
      generate text n g = Ok (res, g') ->
      (Z.of_nat (List.length res) <= Z.max 0 n)%Z)
  /\ (forall pre post res1 g1,
         sent_tokenize (cleaned text) = (pre ++ post)%list ->
         from (pool_of (cleaned text)) n pre g = Ok (res1, g1) ->
         (n <= Z.of_nat (List.length res1))%Z ->
         generate text n g = Ok (res1, g1)).
Proof.
  split.
  - intros res g' H. now apply generate_made in H.
  - intros pre post res1 g1 E H Hn.
    unfold generate_mcq_questions. rewrite E.
    unfold generate_from in *.
    destruct (pool_of (cleaned text)); [exact H|].
    now apply loop_stops.
Qed.

(** *** The contract of [str.lower] *)

Hypothesis lower_idem : forall s, lower (lower s) = lower s.

(** C9: the options of a generated record are pairwise distinct.  They are
    the answer and the distractors; the distractors are distinct entries
    of the vocabulary, each in lower case and different from the lower-case
    form of the answer, and none of them is the answer as it is cased. *)
Theorem options_pairwise_distinct (text : string) (n : Z) (g : rng)
        (res : list MCQ) (g' : rng) (q : MCQ) :
  generate text n g = Ok (res, g') ->
  In q res ->
  NoDup (options q)
  /\ exists distractors,
       Permutation (distractors ++ [answer q])%list (options q)
       /\ NoDup distractors
       /\ forall d, In d distractors ->
                    In d (pool_of (cleaned text))
                    /\ lower d = d
                    /\ d <> lower (answer q)
                    /\ d <> answer q.
Proof.
  intros H Hq. apply generate_made in H as (F & _ & _).
  rewrite Forall_forall in F. destruct (F q Hq) as (sentence & _ & M).
  destruct (made_options _ _ _ M) as (ds & rest & P & _ & P2).
  assert (ND : NoDup (ds ++ rest)%list).
  { apply (Permutation_NoDup P2), NoDup_filter, pool_NoDup. }
  assert (Hd : forall d, In d ds ->
                 In d (pool_of (cleaned text)) /\ lower d = d
                 /\ d <> lower (answer q) /\ d <> answer q).
  { intros d Hd.
    assert (In d (ds ++ rest)%list) as I by (apply in_or_app; now left).
    apply (Permutation_in _ (Permutation_sym P2)), filter_In in I as [I N].
    apply negb_true_iff, String.eqb_neq in N.
    destruct (pool_lower _ _ I) as [w Ew].
    assert (L : lower d = d) by (rewrite Ew; apply lower_idem).
    repeat split; try assumption.
    intros E. apply N. now rewrite <- E, L. }
  assert (NDs : NoDup ds) by (eapply NoDup_app_remove_r; exact ND).
  split.
  - apply (Permutation_NoDup P).
    apply NoDup_app; [exact NDs | repeat constructor; auto | ].
    intros d Hin [E|[]]. subst d. now apply (Hd _ Hin).
  - exists ds. split; [exact P|]. split; [exact NDs | exact Hd].
Qed.

(** *** More on the loop *)

Local Abbreviation eligible_s := (eligible_sentence word_tokenize pos_tag lower).
Local Abbreviation found_s := (answer_found word_tokenize pos_tag lower).

Lemma first_eligible_spec (unique_nouns : list string) :
  forall tags w,
    eligible unique_nouns tags = Some w ->
    exists before t after,
      tags = (before ++ (w, t) :: after)%list
      /\ Str.startswith t "NN" = true
      /\ In (lower w) unique_nouns
      /\ Forall (fun wt => Str.startswith (snd wt) "NN"
                           && Str.mem (lower (fst wt)) unique_nouns = false)
                before.
Proof.
  induction tags as [|[word tag] rest IH]; intros w H; [discriminate|].
  cbn [first_eligible] in H.
  destruct (Str.startswith tag "NN" && Str.mem (lower word) unique_nouns) eqn:C.
  - injection H as <-. apply andb_prop in C as [Cn Cm].
    exists [], tag, rest. repeat split; try assumption.
    + now apply StrFacts.mem_In.
    + constructor.
  - destruct (IH _ H) as (before & t & after & -> & Cn & Cm & F).
    exists ((word, tag) :: before), t, after. repeat split; try assumption.
    constructor; assumption.
Qed.

Lemma eligible_s_true (unique_nouns : list string) (s w : string) :
  eligible unique_nouns (pos_tag (word_tokenize s)) = Some w ->
  String.eqb w EmptyString = false ->
  eligible_s unique_nouns s = true.
Proof. intros E W. unfold eligible_sentence, falsy. now rewrite E, W. Qed.

Lemma eligible_s_empty_word (unique_nouns : list string) (s w : string) :
  eligible unique_nouns (pos_tag (word_tokenize s)) = Some w ->
  String.eqb w EmptyString = true ->
  eligible_s unique_nouns s = false.
Proof. intros E W. unfold eligible_sentence, falsy. now rewrite E, W. Qed.

Lemma eligible_s_none (unique_nouns : list string) (s : string) :
  eligible unique_nouns (pos_tag (word_tokenize s)) = None ->
  eligible_s unique_nouns s = false.
Proof. intros E. unfold eligible_sentence, falsy. now rewrite E. Qed.

(** With an empty vocabulary no sentence has an answer word. *)
Lemma eligible_s_no_vocabulary (sentences : list string) :
  filter (eligible_s []) sentences = [].
Proof.
  induction sentences as [|s rest IH]; [reflexivity|]. cbn [filter].
  rewrite eligible_s_none; [exact IH|].
  induction (pos_tag (word_tokenize s)) as [|[w t] l IHl]; [reflexivity|].
  cbn [first_eligible Str.mem existsb]. now rewrite andb_false_r.
Qed.

Lemma make_mcq_raise_inv (unique_nouns : list string) (sentence w : string)
      (question_id : Z) (g : rng) (e : exn) :
  String.eqb w EmptyString = false ->
  make unique_nouns sentence w question_id g = Raise e ->
  e = IndexError /\ Str.find_split w sentence = None.
Proof.
  intros Hw. unfold make_mcq, split_maxsplit1. rewrite Hw.
  destruct (Str.find_split w sentence) as [[pre post]|].
  - cbn [bind index nth_error].
    destruct (match filter _ unique_nouns with [] => _ | _ :: _ => _ end)
      as [ds g1].
    destruct (random_shuffle (ds ++ [w])%list g1). discriminate.
  - cbn [bind index nth_error]. intros H. injection H as <-. now split.
Qed.

Lemma to_nat_succ (n a : Z) :
  (a < n)%Z -> Z.to_nat (n - a) = S (Z.to_nat (n - (a + 1))).
Proof. intros H. lia. Qed.

(** The records appended by the loop are made, one each and in order,
    from the first sentences that have an answer word, as many as are
    still requested. *)
Lemma loop_first_eligible (unique_nouns : list string) (n : Z) :
  forall sentences acc qid g res g',
    loop unique_nouns n sentences acc qid g = Ok (res, g') ->
    exists new,
      res = (acc ++ new)%list
      /\ Forall2 (made_from unique_nouns)
                 (firstn (Z.to_nat (n - Z.of_nat (List.length acc)))
                         (filter (eligible_s unique_nouns) sentences))
                 new.
Proof.
  induction sentences as [|s rest IH]; intros acc qid g res g' H.
  - injection H as <- <-. exists []. rewrite app_nil_r, firstn_nil.
    split; [reflexivity | constructor].
  - rewrite loop_eq in H.
    destruct (Z.of_nat (List.length acc) >=? n)%Z eqn:Full.
    { injection H as <- <-. exists []. rewrite app_nil_r.
      rewrite Z.geb_leb in Full. apply Z.leb_le in Full.
      replace (Z.to_nat (n - Z.of_nat (List.length acc))) with 0 by lia.
      split; [reflexivity | constructor]. }
    rewrite Z.geb_leb in Full. apply Z.leb_gt in Full. cbn [filter].
    destruct (eligible unique_nouns (pos_tag (word_tokenize s)))
      as [w|] eqn:El.
    2:{ rewrite (eligible_s_none _ _ El). now apply IH in H. }
    destruct (String.eqb w "") eqn:Ew.
    { rewrite (eligible_s_empty_word _ _ _ El Ew). now apply IH in H. }
    rewrite (eligible_s_true _ _ _ El Ew).
    destruct (make unique_nouns s w qid g) as [[q g1]|e] eqn:M;
      [|discriminate].
    cbn [bind fst snd] in H.
    destruct (IH _ _ _ _ _ H) as (new & E & F).
    destruct (make_mcq_ok _ _ _ _ _ _ _ M) as (pre & post & Fs & Eq & Eg).
    exists (q :: new). split; [now rewrite E, <- app_assoc|].
    rewrite (to_nat_succ _ _ Full). cbn [firstn]. constructor.
    + exists pre, post, g. subst q. cbn [answer question options].
      apply String.eqb_neq in Ew. now repeat split.
    + rewrite length_app in F. cbn [List.length] in F.
      now replace (Z.of_nat (List.length acc + 1))
        with (Z.of_nat (List.length acc) + 1)%Z in F by lia.
Qed.

(** The loop returns exactly when the sentences it makes records from
    contain their answer words, and it raises nothing but [IndexError]. *)
Lemma loop_returns_iff (unique_nouns : list string) (n : Z) :
  forall sentences acc qid g,
    ((exists res g', loop unique_nouns n sentences acc qid g = Ok (res, g'))
     <-> Forall (fun s => found_s unique_nouns s = true)
                (firstn (Z.to_nat (n - Z.of_nat (List.length acc)))
                        (filter (eligible_s unique_nouns) sentences)))
    /\ (forall e, loop unique_nouns n sentences acc qid g = Raise e ->
                  e = IndexError).
Proof.
  induction sentences as [|s rest IH]; intros acc qid g.
  - rewrite firstn_nil. split; [|discriminate].
    split; [constructor | now exists acc, g].
  - rewrite loop_eq.
    destruct (Z.of_nat (List.length acc) >=? n)%Z eqn:Full.
    { rewrite Z.geb_leb in Full. apply Z.leb_le in Full.
      replace (Z.to_nat (n - Z.of_nat (List.length acc))) with 0 by lia.
      split; [|discriminate].
      split; [constructor | now exists acc, g]. }
    rewrite Z.geb_leb in Full. apply Z.leb_gt in Full. cbn [filter].
    destruct (eligible unique_nouns (pos_tag (word_tokenize s)))
      as [w|] eqn:El.
    2:{ rewrite (eligible_s_none _ _ El). apply IH. }
    destruct (String.eqb w "") eqn:Ew.
    { rewrite (eligible_s_empty_word _ _ _ El Ew). apply IH. }
    rewrite (eligible_s_true _ _ _ El Ew), (to_nat_succ _ _ Full).
    cbn [firstn].
    destruct (make unique_nouns s w qid g) as [[q g1]|e] eqn:M;
      cbn [bind fst snd].
    + destruct (make_mcq_ok _ _ _ _ _ _ _ M) as (pre & post & Fs & _).
      destruct (IH (acc ++ [q])%list (qid + 1)%Z g1) as [I R].
      rewrite length_app in I. cbn [List.length] in I.
      replace (Z.of_nat (List.length acc + 1))
        with (Z.of_nat (List.length acc) + 1)%Z in I by lia.
      split; [|exact R]. rewrite I. split.
      * intros F. constructor; [|exact F].
        unfold answer_found. now rewrite El, Fs.
      * intros F. now inversion F.
    + destruct (make_mcq_raise_inv _ _ _ _ _ _ Ew M) as [-> Fs].
      split.
      * split; [intros (res & g' & H); discriminate|].
        intros F. inversion F as [|? ? Hs _]. unfold answer_found in Hs.
        rewrite El, Fs in Hs. discriminate.
      * intros e' H. now injection H as <-.
Qed.

(** Asking for fewer questions gives the first records of the longer
    answer. *)
Lemma loop_prefix (unique_nouns : list string) (n m : Z) :
  (n <= m)%Z ->
  forall sentences acc qid g res g',
    loop unique_nouns m sentences acc qid g = Ok (res, g') ->
    exists g'',
      loop unique_nouns n sentences acc qid g
      = Ok (firstn (Nat.max (List.length acc) (Z.to_nat n)) res, g'').
Proof.
  intros Hnm.
  induction sentences as [|s rest IH]; intros acc qid g res g' H.
  - injection H as <- <-. exists g. cbn [sentence_loop].
    rewrite firstn_all2 by lia. reflexivity.
  - destruct (loop_appends _ _ _ _ _ _ _ _ H) as (new & E & _).
    rewrite loop_eq in H. rewrite loop_eq.
    destruct (Z.of_nat (List.length acc) >=? n)%Z eqn:FullN.
    { exists g. rewrite Z.geb_leb in FullN. apply Z.leb_le in FullN.
      replace (Nat.max (List.length acc) (Z.to_nat n))
        with (List.length acc + 0) by lia.
      now rewrite E, firstn_app_2, firstn_O, app_nil_r. }
    rewrite Z.geb_leb in FullN. apply Z.leb_gt in FullN.
    destruct (Z.of_nat (List.length acc) >=? m)%Z eqn:FullM.
    { rewrite Z.geb_leb in FullM. apply Z.leb_le in FullM. lia. }
    destruct (eligible unique_nouns (pos_tag (word_tokenize s))) as [w|];
      [|now apply IH in H].
    destruct (String.eqb w ""); [now apply IH in H|].
    destruct (make unique_nouns s w qid g) as [[q g1]|e]; [|discriminate].
    cbn [bind fst snd] in *.
    destruct (IH _ _ _ _ _ H) as (g'' & L). exists g''. rewrite L.
    replace (Nat.max (List.length (acc ++ [q])%list) (Z.to_nat n))
      with (Nat.max (List.length acc) (Z.to_nat n)); [reflexivity|].
    rewrite length_app. cbn [List.length]. lia.
Qed.

Lemma filter_remove_length (x : string) (l : list string) :
  NoDup l -> In x l ->
  List.length (filter (fun y => negb (String.eqb y x)) l) = List.length l - 1.
Proof.
  induction 1 as [|a l Na ND IH]; [intros []|].
  cbn [filter List.length]. intros [->|H].
  - rewrite String.eqb_refl. cbn [negb]. rewrite filter_fresh by assumption.
    lia.
  - destruct (String.eqb a x) eqn:E.
    + apply String.eqb_eq in E. subst a. now elim Na.
    + cbn [negb List.length]. rewrite IH by assumption.
      destruct l; [destruct H | cbn [List.length]; lia].
Qed.

Lemma generate_first_eligible (text : string) (n : Z) (g : rng)
      (res : list MCQ) (g' : rng) :
  generate text n g = Ok (res, g') ->
  Forall2 (made_from (pool_of (cleaned text)))
          (firstn (Z.to_nat n)
                  (filter (eligible_s (pool_of (cleaned text)))
                          (sent_tokenize (cleaned text))))
          res.
Proof.
  unfold generate_mcq_questions, generate_from.
  destruct (pool_of (cleaned text)) as [|x l] eqn:P.
  - intros H. injection H as <- <-.
    rewrite eligible_s_no_vocabulary, firstn_nil. constructor.
  - intros H. apply loop_first_eligible in H as (new & -> & F).
    cbn [app List.length] in *. now rewrite Z.sub_0_r in F.
Qed.

(** X3: the answer of a generated record is a token of its sentence that
    is tagged as a noun and whose lower-case form is in the vocabulary; it
    is not empty, and no earlier token of the sentence qualifies. *)
Theorem answer_is_first_noun (text : string) (n : Z) (g : rng)
        (res : list MCQ) (g' : rng) (q : MCQ) :
  generate text n g = Ok (res, g') ->
  In q res ->
  exists sentence before tag after,
    In sentence (sent_tokenize (cleaned text))
    /\ pos_tag (word_tokenize sentence)
       = (before ++ (answer q, tag) :: after)%list
    /\ Str.startswith tag "NN" = true
    /\ In (lower (answer q)) (pool_of (cleaned text))
    /\ answer q <> EmptyString
    /\ Forall (fun wt =>
                 Str.startswith (snd wt) "NN"
                 && Str.mem (lower (fst wt)) (pool_of (cleaned text)) = false)
              before.
Proof.
  intros H Hq. apply generate_made in H as (F & _ & _).
  rewrite Forall_forall in F. destruct (F q Hq) as (sentence & Hs & M).
  destruct M as (pre & post & g0 & El & Ne & _).
  apply first_eligible_spec in El as (before & t & after & E & Cn & Cm & Fb).
  exists sentence, before, t, after. now repeat split.
Qed.

Lemma draw_length (unique_nouns : list string) (w : string) (g : rng) :
  List.length (fst (draw unique_nouns w g))
  = Nat.min 3 (List.length
                 (filter (fun n => negb (String.eqb n (lower w))) unique_nouns)).
Proof.
  unfold draw.
  destruct (filter _ unique_nouns) as [|d ds] eqn:F; [reflexivity|].
  apply sample_spec. lia.
Qed.

(** X4: a generated record has as many options as the vocabulary has
    entries, up to four: four as soon as the text has four distinct
    nouns. *)
Theorem options_count (text : string) (n : Z) (g : rng)
        (res : list MCQ) (g' : rng) (q : MCQ) :
  generate text n g = Ok (res, g') ->
  In q res ->
  List.length (options q) = Nat.min 4 (List.length (pool_of (cleaned text))).
Proof.
  intros H Hq. apply generate_made in H as (F & _ & _).
  rewrite Forall_forall in F. destruct (F q Hq) as (sentence & Hs & M).
  destruct M as (pre & post & g0 & El & _ & _ & _ & O).
  apply first_eligible_spec in El as (_ & _ & _ & _ & _ & Cm & _).
  rewrite O, <- (Permutation_length (shuffle_spec _ _)), length_app, draw_length.
  rewrite (filter_remove_length _ _ (pool_NoDup _) Cm).
  cbn [List.length].
  destruct (pool_of (cleaned text)) as [|x l]; [destruct Cm|].
  cbn [List.length]. lia.
Qed.

(** X5: the number of records returned is the number of sentences that
    have an answer word, up to the number requested. *)
Theorem result_length (text : string) (n : Z) (g : rng)
        (res : list MCQ) (g' : rng) :
  generate text n g = Ok (res, g') ->
  Z.of_nat (List.length res)
  = Z.min (Z.max 0 n)
          (Z.of_nat (List.length
                       (filter (eligible_s (pool_of (cleaned text)))
                               (sent_tokenize (cleaned text))))).
Proof.
  intros H. apply generate_first_eligible, Forall2_length in H.
  rewrite <- H, length_firstn. lia.
Qed.

(** X6: the records follow the text: the k-th record is made from the
    k-th sentence that has an answer word, by blanking the first occurrence
    of that word (the word occurs at no earlier index of the sentence); no
    sentence gives two records and none is out of order. *)
Theorem records_follow_sentences (text : string) (n : Z) (g : rng)
        (res : list MCQ) (g' : rng) :
  generate text n g = Ok (res, g') ->
  Forall2 (fun sentence q =>
             eligible (pool_of (cleaned text))
                      (pos_tag (word_tokenize sentence)) = Some (answer q)
             /\ exists pre post,
                 Str.find_split (answer q) sentence = Some (pre, post)
                 /\ sentence = pre ++ answer q ++ post
                 /\ (forall i, i < String.length pre ->
                               occurs_at (answer q) i sentence = false)
                 /\ question q = pre ++ blank ++ post)
          (firstn (Z.to_nat n)
                  (filter (eligible_s (pool_of (cleaned text)))
                          (sent_tokenize (cleaned text))))
          res.
Proof.
  intros H. apply generate_first_eligible in H.
  eapply Forall2_impl; [|exact H].
  intros s q (pre & post & g0 & El & _ & Sp & Q & _).
  split; [exact El|]. exists pre, post.
  destruct (StrFacts.find_split_spec _ _ _ _ Sp) as [E first].
  now repeat split.
Qed.

(** X7: [parts[1]] raises [IndexError] exactly when one of the sentences
    that a record is to be made from (the first [num_questions] sentences
    that have an answer word) does not contain its answer word as a
    substring; a call that returns found every answer word.  The
    [ValueError] of [split] with an empty separator cannot occur, because
    an empty answer word is skipped before the split. *)
Theorem index_error_iff_answer_missing (text : string) (n : Z) (g : rng) :
  (generate text n g = Raise IndexError
   <-> forallb (found_s (pool_of (cleaned text)))
               (firstn (Z.to_nat n)
                       (filter (eligible_s (pool_of (cleaned text)))
                               (sent_tokenize (cleaned text)))) = false)
  /\ (forall res g',
         generate text n g = Ok (res, g') ->
         forallb (found_s (pool_of (cleaned text)))
                 (firstn (Z.to_nat n)
                         (filter (eligible_s (pool_of (cleaned text)))
                                 (sent_tokenize (cleaned text)))) = true)
  /\ generate text n g <> Raise ValueError.
Proof.
  assert (K : ((exists res g', generate text n g = Ok (res, g'))
               <-> forallb (found_s (pool_of (cleaned text)))
                           (firstn (Z.to_nat n)
                                   (filter (eligible_s (pool_of (cleaned text)))
                                           (sent_tokenize (cleaned text))))
                   = true)
              /\ (forall e, generate text n g = Raise e -> e = IndexError)).
  { rewrite forallb_forall, <- Forall_forall.
    unfold generate_mcq_questions, generate_from.
    destruct (pool_of (cleaned text)) as [|x l] eqn:P.
    - rewrite eligible_s_no_vocabulary, firstn_nil. split; [|discriminate].
      split; [constructor | now exists [], g].
    - destruct (loop_returns_iff (x :: l) n (sent_tokenize (cleaned text))
                                 [] 0%Z g) as [I R].
      cbn [List.length] in I. rewrite Z.sub_0_r in I. now split. }
  destruct K as [I R].
  destruct (generate text n g) as [[res g']|e] eqn:G.
  - assert (T : forallb (found_s (pool_of (cleaned text)))
                        (firstn (Z.to_nat n)
                                (filter (eligible_s (pool_of (cleaned text)))
                                        (sent_tokenize (cleaned text)))) = true)
      by (apply I; now exists res, g').
    repeat split; try discriminate.
    + rewrite T. discriminate.
    + intros; exact T.
  - rewrite (R e eq_refl). repeat split; try discriminate.
    destruct (forallb _ _); [|reflexivity].
    destruct (proj2 I eq_refl) as (res & g' & H). discriminate H.
Qed.

(** X9: asking for fewer questions gives the first records of the longer
    answer: with [n <= m], what is returned for [n] is the first [n]
    records of what is returned for [m]. *)
Theorem fewer_questions_prefix (text : string) (n m : Z) (g : rng)
        (res : list MCQ) (g' : rng) :
  (n <= m)%Z ->
  generate text m g = Ok (res, g') ->
  exists g'', generate text n g = Ok (firstn (Z.to_nat n) res, g'').
Proof.
  intros Hnm. unfold generate_mcq_questions, generate_from.
  destruct (pool_of (cleaned text)) as [|x l] eqn:P.
  - intros H. injection H as <- <-. exists g. now rewrite firstn_nil.
  - intros H. apply (loop_prefix _ _ _ Hnm) in H as (g'' & L).
    exists g''. exact L.
Qed.

End GeneratorFacts.

(** ** More on the vocabulary *)


Section VocabularyFacts.

Variable word_tokenize : string -> list string.
Variable pos_tag : list string -> list (string * string).
Variable stop_words : list string.
Variable lower : string -> string.
Variable isalpha : string -> bool.

Local Abbreviation pool_of :=
  (unique_nouns_of word_tokenize pos_tag stop_words lower isalpha).

(** X1: the vocabulary holds exactly the lower-case forms of the tokens of
    the text that are tagged as nouns, are alphabetic and are not
    stopwords, each of them once. *)
Theorem vocabulary_exact (text x : string) :
  NoDup (pool_of text)
  /\ (In x (pool_of text) <->
      exists w t,
        In (w, t) (pos_tag (word_tokenize text))
        /\ Str.startswith t "NN" = true
        /\ Str.mem (lower w) stop_words = false
        /\ isalpha w = true
        /\ x = lower w).
Proof.
  split; [apply dedup_distinct|].
  unfold unique_nouns_of, noun_pool.
  rewrite dedup_In by tauto. rewrite map_map, in_map_iff.
  split.
  - intros [[]|([w t] & E & H)]. apply filter_In in H as [H C].
    cbn [fst snd] in *.
    apply andb_prop in C as [C Ca]. apply andb_prop in C as [Cn Cs].
    apply negb_true_iff in Cs. exists w, t. now repeat split.
  - intros (w & t & H & Cn & Cs & Ca & ->). right. exists (w, t).
    split; [reflexivity|]. apply filter_In. split; [exact H|].
    cbn [fst snd]. now rewrite Cn, Cs, Ca.
Qed.

End VocabularyFacts.

(** ** The random source only decides the options *)

Section RandomIndependence.

Variable sent_tokenize : string -> list string.
Variable word_tokenize : string -> list string.
Variable pos_tag : list string -> list (string * string).
Variable stop_words : list string.
Variable lower : string -> string.
Variable isalpha : string -> bool.
Variable isspace : ascii -> bool.

(** Two random modules, each with its own state. *)
Variable rng1 : Type.
Variable random_sample1 : list string -> nat -> rng1 -> list string * rng1.
Variable random_shuffle1 : list string -> rng1 -> list string * rng1.
Variable rng2 : Type.
Variable random_sample2 : list string -> nat -> rng2 -> list string * rng2.
Variable random_shuffle2 : list string -> rng2 -> list string * rng2.

Local Abbreviation loop1 :=
  (sentence_loop word_tokenize pos_tag lower rng1 random_sample1 random_shuffle1).
Local Abbreviation loop2 :=
  (sentence_loop word_tokenize pos_tag lower rng2 random_sample2 random_shuffle2).
Local Abbreviation make1 :=
  (make_mcq lower rng1 random_sample1 random_shuffle1).
Local Abbreviation make2 :=
  (make_mcq lower rng2 random_sample2 random_shuffle2).

Lemma make_outline (unique_nouns : list string) (sentence w : string)
      (qid : Z) (g1 : rng1) (g2 : rng2) :
  String.eqb w EmptyString = false ->
  (exists q1 g1' q2 g2',
      make1 unique_nouns sentence w qid g1 = Ok (q1, g1')
      /\ make2 unique_nouns sentence w qid g2 = Ok (q2, g2')
      /\ core q1 = core q2)
  \/ (exists e,
         make1 unique_nouns sentence w qid g1 = Raise e
         /\ make2 unique_nouns sentence w qid g2 = Raise e).
Proof.
  intros Hw.
  destruct (make1 unique_nouns sentence w qid g1) as [[q1 g1']|e1] eqn:M1;
    destruct (make2 unique_nouns sentence w qid g2) as [[q2 g2']|e2] eqn:M2.
  - left. exists q1, g1', q2, g2'. repeat split.
    apply make_mcq_ok in M1 as (pre1 & post1 & F1 & -> & _).
    apply make_mcq_ok in M2 as (pre2 & post2 & F2 & -> & _).
    rewrite F1 in F2. injection F2 as <- <-. reflexivity.
  - apply make_mcq_ok in M1 as (pre1 & post1 & F1 & _).
    apply (make_mcq_raise_inv _ _ _ _ _ _ _ _ _ _ Hw) in M2 as [_ F2].
    congruence.
  - apply make_mcq_ok in M2 as (pre2 & post2 & F2 & _).
    apply (make_mcq_raise_inv _ _ _ _ _ _ _ _ _ _ Hw) in M1 as [_ F1].
    congruence.
  - right.
    apply (make_mcq_raise_inv _ _ _ _ _ _ _ _ _ _ Hw) in M1 as [-> _].
    apply (make_mcq_raise_inv _ _ _ _ _ _ _ _ _ _ Hw) in M2 as [-> _].
    now exists IndexError.
Qed.

Lemma loop_outline (unique_nouns : list string) (n : Z) :
  forall sentences acc1 acc2 qid g1 g2,
    map core acc1 = map core acc2 ->
    outline (loop1 unique_nouns n sentences acc1 qid g1)
    = outline (loop2 unique_nouns n sentences acc2 qid g2).
Proof.
  induction sentences as [|s rest IH]; intros acc1 acc2 qid g1 g2 E.
  - cbn [sentence_loop outline]. now rewrite E.
  - rewrite !loop_eq.
    assert (L : List.length acc1 = List.length acc2)
      by (rewrite <- (length_map core acc1), E; apply length_map).
    rewrite L.
    destruct (Z.of_nat (List.length acc2) >=? n)%Z;
      [cbn [outline]; now rewrite E|].
    destruct (first_eligible lower unique_nouns (pos_tag (word_tokenize s)))
      as [w|]; [|now apply IH].
    destruct (String.eqb w "") eqn:Ew; [now apply IH|].
    destruct (make_outline unique_nouns s w qid g1 g2 Ew)
      as [(q1 & g1' & q2 & g2' & M1 & M2 & C)|(e & M1 & M2)];
      rewrite M1, M2; cbn [bind fst snd]; [|reflexivity].
    apply IH. rewrite !map_app. cbn [map]. now rewrite E, C.
Qed.

(** X8: the identifiers, the question texts and the answers do not depend
    on the random module or on its state, nor does whether the function
    raises: randomness only decides the options. *)
Theorem texts_and_answers_deterministic (text : string) (n : Z)
        (g1 : rng1) (g2 : rng2) :
  outline (generate_mcq_questions
             sent_tokenize word_tokenize pos_tag stop_words lower isalpha
             isspace rng1 random_sample1 random_shuffle1 text n g1)
  = outline (generate_mcq_questions
               sent_tokenize word_tokenize pos_tag stop_words lower isalpha
               isspace rng2 random_sample2 random_shuffle2 text n g2).
Proof.
  unfold generate_mcq_questions, generate_from.
  destruct (unique_nouns_of word_tokenize pos_tag stop_words lower isalpha
                            (cleaned_text isspace text));
    [reflexivity|].
  now apply loop_outline.
Qed.

End RandomIndependence.

(** ** Whitespace normalisation *)

Section TextFacts.

Variable isspace : ascii -> bool.

Local Abbreviation split := (Str.split_ws isspace).
Local Abbreviation visible := (all_chars (fun c => negb (isspace c))).

Lemma all_chars_append (p : ascii -> bool) (a b : string) :
  all_chars p (a ++ b) = all_chars p a && all_chars p b.
Proof.
  induction a as [|c a IH]; cbn [append all_chars]; [reflexivity|].
  now rewrite IH, andb_assoc.
Qed.

Lemma append_empty_r (s : string) : s ++ EmptyString = s.
Proof. induction s as [|c s IH]; cbn [append]; [reflexivity | now rewrite IH]. Qed.

Lemma append_char_not_empty (s : string) (c : ascii) :
  String.eqb (s ++ String c EmptyString) EmptyString = false.
Proof. now destruct s. Qed.

(** The words of [split] are not empty and hold no whitespace. *)
Lemma split_words :
  forall s cur,
    visible cur = true ->
    Forall (fun w => w <> EmptyString /\ visible w = true) (split s cur).
Proof.
  induction s as [|c s IH]; intros cur V; cbn [Str.split_ws].
  - destruct (String.eqb cur "") eqn:E; constructor; [|constructor].
    apply String.eqb_neq in E. now split.
  - destruct (isspace c) eqn:Sp.
    + destruct (String.eqb cur "") eqn:E; [now apply IH|].
      constructor; [|now apply IH].
      apply String.eqb_neq in E. now split.
    + apply IH. rewrite all_chars_append, V. cbn [all_chars].
      now rewrite Sp.
Qed.

(** Reading a word with no whitespace only extends the current run. *)
Lemma split_word (w : string) :
  visible w = true ->
  forall rest cur, split (w ++ rest) cur = split rest (cur ++ w).
Proof.
  induction w as [|c w IH]; intros V rest cur.
  - cbn [append]. now rewrite append_empty_r.
  - cbn [all_chars] in V. apply andb_prop in V as [Vc V].
    apply negb_true_iff in Vc.
    cbn [append Str.split_ws]. rewrite Vc, (IH V).
    now rewrite StrFacts.append_assoc.
Qed.

(** A whitespace character ends the current run. *)
Lemma split_at_space (a b : string) (c : ascii) :
  isspace c = true ->
  forall cur,
    split (a ++ String c b) cur = (split a cur ++ split b EmptyString)%list.
Proof.
  intros Sp. induction a as [|x a IH]; intros cur; cbn [append Str.split_ws].
  - rewrite Sp. now destruct (String.eqb cur "").
  - destruct (isspace x).
    + destruct (String.eqb cur ""); [apply IH|].
      cbn [app]. f_equal. apply IH.
    + apply IH.
Qed.

Lemma split_blank_text (s : string) :
  all_chars isspace s = true -> split s EmptyString = [].
Proof.
  induction s as [|c s IH]; [reflexivity|].
  cbn [all_chars Str.split_ws]. intros H. apply andb_prop in H as [Hc Hs].
  rewrite Hc. cbn. now apply IH.
Qed.

Hypothesis space_is_space : isspace " " = true.

Lemma split_one_word (w : string) :
  visible w = true -> w <> EmptyString -> split w EmptyString = [w].
Proof.
  intros V Ne. pose proof (split_word w V EmptyString EmptyString) as H.
  rewrite append_empty_r in H. rewrite H. cbn [append Str.split_ws].
  apply String.eqb_neq in Ne. now rewrite Ne.
Qed.

(** Joining words with single spaces and splitting again gives the words
    back. *)
Lemma split_join (words : list string) :
  Forall (fun w => w <> EmptyString /\ visible w = true) words ->
  split (Str.join " " words) EmptyString = words.
Proof.
  induction 1 as [|w rest [Ne V] F IH]; [reflexivity|].
  destruct rest as [|w' rest].
  - cbn [Str.join]. now apply split_one_word.
  - change (Str.join " " (w :: w' :: rest))
      with (w ++ String " " (Str.join " " (w' :: rest))).
    rewrite (split_at_space _ _ _ space_is_space), IH.
    now rewrite split_one_word.
Qed.

(** X10: normalising the whitespace of a text that is already normalised
    changes nothing. *)
Theorem cleaned_text_idempotent (text : string) :
  cleaned_text isspace (cleaned_text isspace text) = cleaned_text isspace text.
Proof.
  unfold cleaned_text at 1 3. f_equal.
  apply split_join, split_words. reflexivity.
Qed.

(** X11: the words of the text survive the normalisation: the cleaned text
    splits into the same words as the text, which are not empty and hold
    no whitespace. *)
Theorem cleaned_text_same_words (text : string) :
  split (cleaned_text isspace text) EmptyString = split text EmptyString
  /\ Forall (fun w => w <> EmptyString /\ visible w = true)
            (split text EmptyString).
Proof.
  split; [|now apply split_words].
  apply split_join, split_words. reflexivity.
Qed.

End TextFacts.

(** ** extract_text_from_pdf and the quiz route *)

Section RoutesFacts.

Variable sent_tokenize : string -> list string.
Variable word_tokenize : string -> list string.
Variable pos_tag : list string -> list (string * string).
Variable stop_words : list string.
Variable lower : string -> string.
Variable isalpha : string -> bool.
Variable isspace : ascii -> bool.
Variable rng : Type.
Variable random_sample : list string -> nat -> rng -> list string * rng.
Variable random_shuffle : list string -> rng -> list string * rng.
Variable page : Type.
Variable PdfReader : string -> opened page.
Variable extract_text : page -> extracted.
Variable int : string -> option Z.

Local Abbreviation generate :=
  (generate_mcq_questions sent_tokenize word_tokenize pos_tag stop_words
     lower isalpha isspace rng random_sample random_shuffle).
Local Abbreviation extract := (extract_text_from_pdf page PdfReader extract_text).
Local Abbreviation quiz :=
  (quiz sent_tokenize word_tokenize pos_tag stop_words lower isalpha isspace
        rng random_sample random_shuffle page PdfReader extract_text int).
Local Abbreviation split := (Str.split_ws isspace).
Local Abbreviation page_words := (page_words isspace page extract_text).
Local Abbreviation blank_page := (blank_page isspace page extract_text).
Local Abbreviation num_questions_of := (num_questions_of int).

Lemma page_words_eq (p : page) :
  split (page_text page extract_text p) EmptyString = page_words p.
Proof. unfold page_text, page_words. now destruct (extract_text p). Qed.

Lemma page_words_blank (p : page) :
  blank_page p = true -> page_words p = [].
Proof.
  unfold blank_page, page_words. destruct (extract_text p); try reflexivity.
  apply split_blank_text.
Qed.

(** With a count that is not positive nothing is generated. *)
Lemma generate_nothing (text : string) (n : Z) (g : rng) :
  (n <= 0)%Z -> generate text n g = Ok ([], g).
Proof.
  intros Hn. unfold generate_mcq_questions, generate_from.
  destruct (unique_nouns_of _ _ _ _ _ _); [reflexivity|].
  now apply loop_full.
Qed.

(** What the route does with an upload that has a name. *)
Lemma quiz_named (fs : FileStorage) (f : form) (g : rng) :
  filename fs <> EmptyString ->
  quiz (Some fs) f g =
  match extract (stream fs) with
  | Done text =>
      match generate text (num_questions_of f) g with
      | Ok (mcqs, _) =>
          match mcqs with
          | [] => Redirect_index unable_message
          | _ :: _ => Render_quiz mcqs
          end
      | Raise e => Redirect_index (error_prefix ++ exn_str e)
      end
  | Raised message => Redirect_index (error_prefix ++ message)
  end.
Proof.
  intros Hname. unfold quiz, no_upload.
  apply String.eqb_neq in Hname. now rewrite Hname.
Qed.

(** X14: a quiz is only rendered for an upload with a file name, and the
    batch it shows is not empty, has at most the requested number of
    records and is numbered from 0. *)
Theorem quiz_rendered_batch (file : option FileStorage) (f : form) (g : rng)
        (mcqs : list MCQ) :
  quiz file f g = Render_quiz mcqs ->
  (exists fs, file = Some fs /\ filename fs <> EmptyString)
  /\ mcqs <> []
  /\ (Z.of_nat (List.length mcqs) <= num_questions_of f)%Z
  /\ map id mcqs = map Z.of_nat (seq 0 (List.length mcqs)).
Proof.
  destruct file as [fs|]; [|discriminate].
  destruct (String.eqb (filename fs) "") eqn:Hname.
  { unfold quiz, no_upload. rewrite Hname. discriminate. }
  apply String.eqb_neq in Hname. rewrite (quiz_named _ _ _ Hname).
  destruct (extract (stream fs)) as [text|m]; [|discriminate].
  destruct (generate text (num_questions_of f) g) as [[l g']|e] eqn:G;
    [|discriminate].
  destruct l as [|q l]; [discriminate|].
  intros H. injection H as <-.
  apply generate_made in G as (_ & I & L).
  split; [now exists fs|]. split; [discriminate|].
  split; [|exact I]. cbn [List.length] in *. lia.
Qed.

(** X15: when the number of questions posted is zero or negative, a
    readable upload is answered with the message that no question could be
    generated. *)
Theorem quiz_count_not_positive (fs : FileStorage) (f : form) (g : rng)
        (pages : list page) :
  filename fs <> EmptyString ->
  PdfReader (stream fs) = Pages pages ->
  (num_questions_of f <= 0)%Z ->
  quiz (Some fs) f g = Redirect_index unable_message.
Proof.
  intros Hname R Hn. rewrite (quiz_named _ _ _ Hname).
  unfold extract_text_from_pdf. rewrite R.
  now rewrite generate_nothing.
Qed.

Hypothesis newline_is_space : isspace "010" = true.

Lemma split_lines (chunks : list string) :
  split (Str.join newline chunks) EmptyString
  = flat_map (fun c => split c EmptyString) chunks.
Proof.
  induction chunks as [|c rest IH]; [reflexivity|].
  destruct rest as [|c' rest].
  - cbn [Str.join flat_map]. now rewrite app_nil_r.
  - change (Str.join newline (c :: c' :: rest))
      with (c ++ String "010" (Str.join newline (c' :: rest))).
    rewrite (split_at_space _ _ _ _ newline_is_space), IH. reflexivity.
Qed.

Lemma extract_cleaned (pages : list page) :
  cleaned_text isspace
               (Str.join newline (map (page_text page extract_text) pages))
  = Str.join " " (flat_map page_words pages).
Proof.
  unfold cleaned_text. rewrite split_lines, !flat_map_concat_map, map_map.
  do 2 f_equal. apply map_ext. exact page_words_eq.
Qed.

(** X12: the text extracted from a PDF that can be opened, once its
    whitespace is normalised, is made of the words of its pages in page
    order; a page whose extraction raises or gives nothing contributes no
    word and does not stop the extraction. *)
Theorem extracted_words (file_stream : string) (pages : list page) :
  PdfReader file_stream = Pages pages ->
  exists text,
    extract file_stream = Done text
    /\ cleaned_text isspace text = Str.join " " (flat_map page_words pages).
Proof.
  intros R. unfold extract_text_from_pdf. rewrite R.
  eexists. split; [reflexivity | apply extract_cleaned].
Qed.

(** X13: a PDF without any text (every page fails, gives nothing or gives
    only whitespace) is answered with the message that no question could be
    generated, whatever number of questions was asked for. *)
Theorem quiz_pdf_without_text (fs : FileStorage) (f : form) (g : rng)
        (pages : list page) :
  filename fs <> EmptyString ->
  PdfReader (stream fs) = Pages pages ->
  forallb blank_page pages = true ->
  pos_tag (word_tokenize EmptyString) = [] ->
  quiz (Some fs) f g = Redirect_index unable_message.
Proof.
  intros Hname R Blank Tok. rewrite (quiz_named _ _ _ Hname).
  unfold extract_text_from_pdf. rewrite R.
  unfold generate_mcq_questions. rewrite extract_cleaned.
  replace (flat_map page_words pages) with (@nil string).
  - cbn [Str.join]. unfold unique_nouns_of. rewrite Tok. reflexivity.
  - symmetry. clear R. induction pages as [|p rest IH]; [reflexivity|].
    cbn [forallb] in Blank. apply andb_prop in Blank as [Bp Br].
    cbn [flat_map]. now rewrite (page_words_blank _ Bp), IH.
Qed.

(** A rendered quiz is what the generator returned for the upload. *)
Lemma quiz_render_inv (file : option FileStorage) (f : form) (g : rng)
      (mcqs : list MCQ) :
  quiz file f g = Render_quiz mcqs ->
  exists fs text g',
    file = Some fs
    /\ filename fs <> EmptyString
    /\ extract (stream fs) = Done text
    /\ generate text (num_questions_of f) g = Ok (mcqs, g')
    /\ mcqs <> [].
Proof.
  destruct file as [fs|]; [|discriminate].
  destruct (String.eqb (filename fs) "") eqn:Hname.
  { unfold quiz, no_upload. rewrite Hname. discriminate. }
  apply String.eqb_neq in Hname. rewrite (quiz_named _ _ _ Hname).
  destruct (extract (stream fs)) as [text|m] eqn:E; [|discriminate].
  destruct (generate text (num_questions_of f) g) as [[l g']|e] eqn:G;
    [|discriminate].
  destruct l as [|q l]; [discriminate|].
  intros H. injection H as <-.
  exists fs, text, g'.
  split; [reflexivity|]. split; [exact Hname|]. split; [exact E|].
  split; [exact G | discriminate].
Qed.

(** X22: when the field [num_questions] is missing or is not an integer,
    the route asks the generator for exactly five questions: a quiz it
    renders is the answer of the generator for 5, with between one and
    five records. *)
Theorem quiz_default_count (file : option FileStorage) (f : form) (g : rng) :
  form_get f "num_questions" = None
  \/ (exists value, form_get f "num_questions" = Some value
                    /\ int value = None) ->
  num_questions_of f = 5%Z
  /\ forall mcqs,
       quiz file f g = Render_quiz mcqs ->
       1 <= List.length mcqs <= 5
       /\ exists fs text g',
            file = Some fs
            /\ extract (stream fs) = Done text
            /\ generate text 5%Z g = Ok (mcqs, g').
Proof.
  intros D.
  assert (N : num_questions_of f = 5%Z).
  { unfold num_questions_of.
    destruct D as [D|(v & D & I)]; rewrite D; [|rewrite I]; reflexivity. }
  split; [exact N|]. intros mcqs H.
  apply quiz_render_inv in H as (fs & text & g' & -> & _ & E & G & Ne).
  rewrite N in G. split.
  - apply generate_made in G as (_ & _ & L).
    destruct mcqs; [now elim Ne|]. cbn [List.length] in *. lia.
  - now exists fs, text, g'.
Qed.

Hypothesis space_is_space : isspace " " = true.

(** X23: the generator only sees the words of the text: it returns for a
    text what it returns for the same text with its whitespace
    normalised, so the line breaks and the spacing of the PDF do not
    change the quiz. *)
Theorem generate_ignores_spacing (text : string) (n : Z) (g : rng) :
  generate (cleaned_text isspace text) n g = generate text n g.
Proof.
  assert (E : cleaned_text isspace (cleaned_text isspace text)
              = cleaned_text isspace text).
  { unfold cleaned_text at 1 3. f_equal.
    apply (split_join _ space_is_space), split_words. reflexivity. }
  unfold generate_mcq_questions. now rewrite E.
Qed.

End RoutesFacts.


(** ** Grading *)

Section SubmitFacts.

Variable f : form.

Lemma opt_eqb_eq (a b : option string) : opt_eqb a b = true <-> a = b.
Proof.
  destruct a as [x|], b as [y|]; simpl; try (split; congruence).
  rewrite String.eqb_eq. split; congruence.
Qed.

(** A key that starts with "q" cannot start with "answer": the second test
    of the filter never rejects anything. *)
Lemma graded_key_q (key : string) : graded_key key = Str.startswith key "q".
Proof.
  unfold graded_key, Str.startswith.
  destruct key as [|c key]; [reflexivity|].
  rewrite !StrFacts.prefix_cons.
  destruct (ascii_dec "q" c) as [<-|_]; [|reflexivity].
  destruct (ascii_dec "a" "q") as [E|_]; [discriminate E|].
  now destruct key.
Qed.

Lemma submit_step_eq (results : list graded) (score : Z) (key : string) :
  submit_step f (results, score) key =
  if graded_key key
  then ((results ++ [grade f key])%list,
        if is_correct (grade f key) then (score + 1)%Z else score)
  else (results, score).
Proof. unfold submit_step. now destruct (graded_key key). Qed.

(** The loop of [submit] on any list of keys. *)
Lemma submit_fold :
  forall keys results score,
    fold_left (submit_step f) keys (results, score) =
    ((results ++ map (grade f) (filter graded_key keys))%list,
     (score + Z.of_nat (List.length
                          (filter is_correct
                                  (map (grade f) (filter graded_key keys)))))%Z).
Proof.
  induction keys as [|key keys IH]; intros results score.
  - simpl. now rewrite app_nil_r, Z.add_0_r.
  - cbn [fold_left filter]. rewrite submit_step_eq.
    destruct (graded_key key).
    + rewrite IH. cbn [map filter]. rewrite <- app_assoc. cbn [app].
      f_equal. destruct (is_correct (grade f key)); cbn [List.length]; lia.
    + apply IH.
Qed.

Lemma submit_eq :
  submit f =
  (map (grade f) (filter graded_key (form_keys f)),
   Z.of_nat (List.length
               (filter is_correct
                       (map (grade f) (filter graded_key (form_keys f)))))).
Proof. unfold submit. now rewrite submit_fold. Qed.

Lemma form_get_In (key v : string) :
  form_get f key = Some v -> In key (map fst f).
Proof.
  induction f as [|[k x] rest IH]; [discriminate|].
  cbn [form_get map fst In].
  destruct (String.eqb k key) eqn:E.
  - apply String.eqb_eq in E. now left.
  - intros H. right. now apply IH.
Qed.

Lemma form_keys_from_In (key : string) :
  forall (h : form) seen,
    In key (map fst h) -> ~ In key seen -> In key (form_keys_from h seen).
Proof.
  induction h as [|[k x] rest IH]; intros seen H N; [destruct H|].
  cbn [form_keys_from]. cbn [map fst In] in H.
  destruct (Str.mem k seen) eqn:M.
  - apply IH; [|exact N].
    destruct H as [->|H]; [|exact H].
    apply StrFacts.mem_In in M. now elim N.
  - destruct (String.eqb k key) eqn:E.
    + apply String.eqb_eq in E. now left.
    + apply String.eqb_neq in E. right. apply IH.
      * destruct H as [H|H]; [now elim E | exact H].
      * intros [H'|H']; [now elim E | now elim N].
Qed.

(** Every posted key is visited by the loop. *)
Lemma form_keys_complete (key v : string) :
  form_get f key = Some v -> In key (form_keys f).
Proof.
  intros H. apply form_keys_from_In; [now apply form_get_In in H | intros []].
Qed.

Lemma correct_count (keys : list string) :
  List.length (filter is_correct (map (grade f) (filter graded_key keys)))
  = List.length (filter (fun k => graded_key k && is_correct (grade f k)) keys).
Proof.
  induction keys as [|k l IH]; [reflexivity|]. cbn [filter].
  destruct (graded_key k); cbn [map filter andb]; [|exact IH].
  destruct (is_correct (grade f k)); cbn [List.length]; now rewrite IH.
Qed.

(** C5: every posted key that starts with "q" is graded: it gives a result
    record with the submitted answer, the posted correct answer and the
    flag [is_correct], which is true exactly when the two are the same
    string, character for character; there are no other records.  The
    score is the number of records marked correct, that is the number of
    posted keys starting with "q" whose value is the posted correct
    answer. *)
Theorem score_counts_exact_matches :
  (forall key v,
      form_get f key = Some v ->
      Str.startswith key "q" = true ->
      In (Build_graded
            (or_empty (form_get f ("question" ++ Str.drop 1 key)))
            (Some v)
            (form_get f ("answer" ++ Str.drop 1 key))
            (opt_eqb (Some v) (form_get f ("answer" ++ Str.drop 1 key))))
         (fst (submit f)))
  /\ Forall (fun r => exists key,
                 In key (form_keys f)
                 /\ Str.startswith key "q" = true
                 /\ user_answer r = form_get f key
                 /\ correct r = form_get f ("answer" ++ Str.drop 1 key)
                 /\ (is_correct r = true <-> user_answer r = correct r))
            (fst (submit f))
  /\ snd (submit f) = Z.of_nat (List.length (filter is_correct (fst (submit f))))
  /\ snd (submit f)
     = Z.of_nat
         (List.length
            (filter (fun key =>
                       Str.startswith key "q"
                       && opt_eqb (form_get f key)
                                  (form_get f ("answer" ++ Str.drop 1 key)))
                    (form_keys f))).
Proof.
  rewrite submit_eq. cbn [fst snd]. repeat split.
  - intros key v Hv Hq. apply in_map_iff. exists key. split.
    + unfold grade. now rewrite Hv.
    + apply filter_In. split; [now apply form_keys_complete in Hv|].
      now rewrite graded_key_q.
  - apply Forall_forall. intros r Hr.
    apply in_map_iff in Hr as (key & <- & Hk).
    apply filter_In in Hk as [Hk Hq]. rewrite graded_key_q in Hq.
    exists key. cbn [grade user_answer correct is_correct].
    repeat split; try assumption; apply opt_eqb_eq.
  - rewrite correct_count. f_equal. f_equal. apply filter_ext.
    intros key. now rewrite graded_key_q.
Qed.

(** C10: there is one result record for every posted key that starts with
    "q", in the order of the keys.  A posted "question..." field is such a
    key: it gives a record of its own, whose submitted answer is the
    question text, whose correct answer is looked up under
    "answeruestion..." and, that field being absent, is marked incorrect. *)
Theorem one_record_per_q_key :
  fst (submit f) =
  map (grade f) (filter (fun key => Str.startswith key "q") (form_keys f))
  /\ forall qid v,
       form_get f ("question" ++ qid) = Some v ->
       form_get f ("answeruestion" ++ qid) = None ->
       In (Build_graded (or_empty (form_get f ("questionuestion" ++ qid)))
                        (Some v) None false)
          (fst (submit f)).
Proof.
  rewrite submit_eq. cbn [fst]. split.
  - f_equal. apply filter_ext. exact graded_key_q.
  - intros qid v Hq Ha. apply in_map_iff.
    exists ("question" ++ qid). split.
    + unfold grade.
      change (Str.drop 1 ("question" ++ qid)) with ("uestion" ++ qid).
      change ("answer" ++ "uestion" ++ qid) with ("answeruestion" ++ qid).
      change ("question" ++ "uestion" ++ qid) with ("questionuestion" ++ qid).
      now rewrite Hq, Ha.
    + apply filter_In. split; [now apply form_keys_complete in Hq|].
      rewrite graded_key_q. reflexivity.
Qed.

End SubmitFacts.

(** ** ensure_nltk_data *)

Section NltkFacts.

Variable store : Type.
Variable find : string -> store -> bool.
Variable download : string -> store -> store.

Local Abbreviation ensure := (ensure_nltk_data store find download).
Local Abbreviation fod := (find_or_download store find download).

(** A download makes its resource available and removes none. *)
Hypothesis download_installs :
  forall path name s,
    In (path, name) nltk_resources -> find path (download name s) = true.
Hypothesis download_keeps :
  forall path name s, find path s = true -> find path (download name s) = true.

Lemma fod_installs (path name : string) (s : store) :
  In (path, name) nltk_resources -> find path (fod path name s) = true.
Proof.
  intros H. unfold find_or_download.
  destruct (find path s) eqn:F; [exact F | now apply download_installs].
Qed.

Lemma fod_keeps (p path name : string) (s : store) :
  find p s = true -> find p (fod path name s) = true.
Proof.
  intros H. unfold find_or_download.
  destruct (find path s); [exact H | now apply download_keeps].
Qed.

Lemma fod_present (path name : string) (s : store) :
  find path s = true -> fod path name s = s.
Proof. intros H. unfold find_or_download. now rewrite H. Qed.

(** X21: after [ensure_nltk_data] the three resources are found, nothing
    is downloaded when they already are, and so a second call changes
    nothing. *)
Theorem ensure_nltk_data_idempotent (s : store) :
  Forall (fun r => find (fst r) (ensure s) = true) nltk_resources
  /\ (Forall (fun r => find (fst r) s = true) nltk_resources -> ensure s = s)
  /\ ensure (ensure s) = ensure s.
Proof.
  assert (After : forall t,
             Forall (fun r => find (fst r) (ensure t) = true) nltk_resources).
  { intros t. unfold ensure_nltk_data, nltk_resources.
    repeat constructor; cbn [fst].
    - apply fod_keeps, fod_keeps, fod_installs. cbn. tauto.
    - apply fod_keeps, fod_installs. cbn. tauto.
    - apply fod_installs. cbn. tauto. }
  assert (Same : forall t,
             Forall (fun r => find (fst r) t = true) nltk_resources ->
             ensure t = t).
  { intros t H. unfold nltk_resources in H.
    inversion H as [|? ? H1 H']; subst. inversion H' as [|? ? H2 H'']; subst.
    inversion H'' as [|? ? H3 _]; subst. cbn [fst] in *.
    unfold ensure_nltk_data. now rewrite (fod_present _ _ _ H1),
      (fod_present _ _ _ H2), (fod_present _ _ _ H3). }
  split; [apply After|]. split; [apply Same|]. apply Same, After.
Qed.

End NltkFacts.

(** ** More on grading *)

Section SubmitMore.

Variable f : form.

Lemma form_keys_from_sound (key : string) :
  forall (h : form) seen,
    In key (form_keys_from h seen) -> In key (map fst h) /\ ~ In key seen.
Proof.
  induction h as [|[k x] rest IH]; intros seen H; [destruct H|].
  cbn [form_keys_from] in H. cbn [map fst In].
  destruct (Str.mem k seen) eqn:M.
  - destruct (IH _ H) as [I N]. split; [now right | exact N].
  - destruct H as [->|H].
    + split; [now left | now apply StrFacts.mem_not_In].
    + destruct (IH _ H) as [I N]. split; [now right|].
      intros N'. apply N. now right.
Qed.

Lemma form_keys_from_length :
  forall (h : form) seen, List.length (form_keys_from h seen) <= List.length h.
Proof.
  induction h as [|[k x] rest IH]; intros seen; cbn [form_keys_from List.length];
    [lia|].
  destruct (Str.mem k seen); [specialize (IH seen) | specialize (IH (k :: seen))];
    cbn [List.length]; lia.
Qed.

Lemma form_get_some (key : string) :
  In key (map fst f) -> exists v, form_get f key = Some v.
Proof.
  induction f as [|[k x] rest IH]; [intros []|].
  cbn [map fst In form_get]. intros H.
  destruct (String.eqb k key) eqn:E; [now exists x|].
  apply String.eqb_neq in E. destruct H as [H|H]; [now elim E | now apply IH].
Qed.

(** A key is visited by the loop exactly when [get] finds it. *)
Lemma form_keys_get (key : string) :
  In key (form_keys f) <-> exists v, form_get f key = Some v.
Proof.
  split.
  - intros H. apply form_keys_from_sound in H as [H _].
    now apply form_get_some.
  - intros [v H]. now apply form_keys_complete in H.
Qed.

Lemma form_get_absent (key : string) :
  ~ In key (form_keys f) -> form_get f key = None.
Proof.
  intros N. destruct (form_get f key) as [v|] eqn:G; [|reflexivity].
  elim N. apply form_keys_get. now exists v.
Qed.

(** X17: the score lies between zero and the number of result records,
    and there are no more records than posted fields. *)
Theorem score_bounds :
  (0 <= snd (submit f) <= Z.of_nat (List.length (fst (submit f))))%Z
  /\ List.length (fst (submit f)) <= List.length f.
Proof.
  rewrite submit_eq. cbn [fst snd]. split.
  - pose proof (filter_length_le is_correct
                  (map (grade f) (filter graded_key (form_keys f)))).
    lia.
  - rewrite length_map.
    pose proof (filter_length_le graded_key (form_keys f)).
    pose proof (form_keys_from_length f []). unfold form_keys in *. lia.
Qed.

(** X18: a selected option whose correct-answer field was not posted is
    not an error: it gives a record without correct answer, marked
    incorrect. *)
Theorem missing_answer_is_incorrect (key v : string) :
  Str.startswith key "q" = true ->
  form_get f key = Some v ->
  form_get f ("answer" ++ Str.drop 1 key) = None ->
  In (Build_graded (or_empty (form_get f ("question" ++ Str.drop 1 key)))
                   (Some v) None false)
     (fst (submit f)).
Proof.
  intros Hq Hv Ha. rewrite submit_eq. cbn [fst]. apply in_map_iff.
  exists key. split.
  - unfold grade. now rewrite Hv, Ha.
  - apply filter_In. split; [now apply form_keys_complete in Hv|].
    now rewrite graded_key_q.
Qed.

(** X19: fields whose key does not start with "q" are never graded: a form
    without such a key gives no record and the score 0. *)
Theorem nothing_to_grade :
  Forall (fun kv => Str.startswith (fst kv) "q" = false) f ->
  submit f = ([], 0%Z).
Proof.
  intros H. rewrite submit_eq.
  replace (filter graded_key (form_keys f)) with (@nil string); [reflexivity|].
  symmetry.
  assert (E : forall k, In k (form_keys f) -> graded_key k = false).
  { intros k Hk. apply form_keys_from_sound in Hk as [Hk _].
    apply in_map_iff in Hk as ([k' x] & <- & Hin).
    rewrite graded_key_q. rewrite Forall_forall in H. exact (H _ Hin). }
  induction (form_keys f) as [|k l IH]; [reflexivity|].
  cbn [filter]. rewrite (E k) by now left.
  apply IH. intros k' Hk'. apply E. now right.
Qed.

Lemma filter_length_perm {A : Type} (p : A -> bool) (l l' : list A) :
  Permutation l l' -> List.length (filter p l) = List.length (filter p l').
Proof.
  induction 1 as [|x l l' P IH|x y l|l l' l'' P1 IH1 P2 IH2]; cbn [filter].
  - reflexivity.
  - destruct (p x); cbn [List.length]; now rewrite IH.
  - destruct (p x), (p y); reflexivity.
  - now rewrite IH1.
Qed.

Variable ids : list string.

Hypothesis layout : Permutation (form_keys f) (flat_map fields_of ids).
Hypothesis plain_ids : Forall (fun i => Str.startswith i "uestion" = false) ids.

Lemma answer_key_skipped (i : string) : graded_key ("answer" ++ i) = false.
Proof. reflexivity. Qed.

Lemma q_key_graded (i : string) : graded_key ("q" ++ i) = true.
Proof. rewrite graded_key_q. exact (StrFacts.prefix_append "q" i). Qed.

Lemma question_key_graded (i : string) : graded_key ("question" ++ i) = true.
Proof.
  rewrite graded_key_q. exact (StrFacts.prefix_append "q" ("uestion" ++ i)).
Qed.

(** The field "answeruestion..." that a "question..." key is graded
    against is not part of the layout. *)
Lemma phantom_absent (i : string) :
  form_get f ("answeruestion" ++ i) = None.
Proof.
  apply form_get_absent. intros H.
  apply (Permutation_in _ layout), in_flat_map in H as (j & Hj & Hf).
  cbn [fields_of In] in Hf. destruct Hf as [E|[E|[E|[]]]]; try discriminate E.
  assert (Ej : j = "uestion" ++ i) by (cbn in E; now injection E).
  rewrite Forall_forall in plain_ids. specialize (plain_ids _ Hj).
  subst j. unfold Str.startswith in plain_ids.
  now rewrite (StrFacts.prefix_append "uestion" i) in plain_ids.
Qed.

Lemma layout_count (l : list string) :
  (forall i, In i l -> In i ids) ->
  List.length (filter (fun k => graded_key k && is_correct (grade f k))
                      (flat_map fields_of l))
  = List.length (filter (fun i => opt_eqb (form_get f ("q" ++ i))
                                          (form_get f ("answer" ++ i))) l).
Proof.
  induction l as [|i l IH]; intros Hl; [reflexivity|].
  cbn [flat_map]. rewrite filter_app, length_app, IH
    by (intros j Hj; apply Hl; now right).
  cbn [fields_of filter].
  assert (Q : exists v, form_get f ("question" ++ i) = Some v).
  { apply form_keys_get, (Permutation_in _ (Permutation_sym layout)).
    apply in_flat_map. exists i. split; [apply Hl; now left|].
    cbn [fields_of In]. tauto. }
  destruct Q as [v Q].
  rewrite q_key_graded, answer_key_skipped, question_key_graded.
  cbn [andb].
  replace (is_correct (grade f ("question" ++ i))) with false.
  2:{ unfold grade. cbn [is_correct].
      change (Str.drop 1 ("question" ++ i)) with ("uestion" ++ i).
      change ("answer" ++ "uestion" ++ i) with ("answeruestion" ++ i).
      now rewrite Q, phantom_absent. }
  replace (is_correct (grade f ("q" ++ i)))
    with (opt_eqb (form_get f ("q" ++ i)) (form_get f ("answer" ++ i)))
    by reflexivity.
  destruct (opt_eqb (form_get f ("q" ++ i)) (form_get f ("answer" ++ i)));
    reflexivity.
Qed.

Lemma layout_records (l : list string) :
  List.length (filter graded_key (flat_map fields_of l)) = 2 * List.length l.
Proof.
  induction l as [|i l IH]; [reflexivity|].
  cbn [flat_map]. rewrite filter_app, length_app, IH. cbn [fields_of filter].
  rewrite q_key_graded, answer_key_skipped, question_key_graded.
  cbn [List.length]. lia.
Qed.

(** X20: for a form that holds, in any order, the three fields of each of
    a set of questions, the score is the number of questions whose selected
    option is the posted correct answer; there are two records for each
    question, and the one made from the question-text field never
    scores. *)
Theorem score_of_posted_quiz :
  snd (submit f)
  = Z.of_nat (List.length
                (filter (fun i => opt_eqb (form_get f ("q" ++ i))
                                          (form_get f ("answer" ++ i))) ids))
  /\ List.length (fst (submit f)) = 2 * List.length ids.
Proof.
  rewrite submit_eq. cbn [fst snd]. split.
  - rewrite correct_count, (filter_length_perm _ _ _ layout).
    now rewrite layout_count.
  - rewrite length_map, (filter_length_perm _ _ _ layout).
    apply layout_records.
Qed.

End SubmitMore.

(** Grading is case-sensitive: "Cat" against "cat" scores nothing. *)
Example submit_case_sensitive :
  submit [("q0", "Cat"); ("answer0", "cat")]
  = ([Build_graded "" (Some "Cat") (Some "cat") false], 0%Z).
Proof. reflexivity. Qed.

(** ** The small instance satisfies the contracts *)

Module StubFacts.

Lemma lower_char_idem (c : ascii) :
  Stub.lower_char (Stub.lower_char c) = Stub.lower_char c.
Proof. destruct c as [[] [] [] [] [] [] [] []]; reflexivity. Qed.

Lemma lower_idem (s : string) : Stub.lower (Stub.lower s) = Stub.lower s.
Proof.
  induction s as [|c s IH]; [reflexivity|].
  cbn [Stub.lower]. now rewrite lower_char_idem, IH.
Qed.

Lemma rotate_perm (n : nat) (l : list string) : Permutation l (Stub.rotate n l).
Proof.
  unfold Stub.rotate.
  rewrite <- (firstn_skipn (n mod List.length l) l) at 1.
  apply Permutation_app_comm.
Qed.

Lemma shuffle_spec (x : list string) (g : nat) :
  Permutation x (fst (Stub.random_shuffle x g)).
Proof. apply rotate_perm. Qed.

Lemma sample_spec (population : list string) (k g : nat) :
  k <= List.length population ->
  List.length (fst (Stub.random_sample population k g)) = k
  /\ exists rest,
       Permutation population
                   (fst (Stub.random_sample population k g) ++ rest)%list.
Proof.
  intros Hk. cbn [Stub.random_sample fst]. split.
  - rewrite length_firstn, <- (Permutation_length (rotate_perm g population)).
    lia.
  - exists (skipn k (Stub.rotate g population)).
    rewrite firstn_skipn. apply rotate_perm.
Qed.

End StubFacts.

(** ** The scenarios, run *)

Lemma answer_among_options_two_sentences :
  In (answer Stub.q_cat) (options Stub.q_cat)
  /\ 1 <= List.length (options Stub.q_cat) <= 4.
Proof.
  apply (answer_among_options
           Stub.sent_tokenize Stub.word_tokenize Stub.pos_tag Stub.stop_words
           Stub.lower Stub.isalpha Stub.isspace nat
           Stub.random_sample Stub.random_shuffle
           StubFacts.sample_spec StubFacts.shuffle_spec
           Stub.two_sentences 2%Z 0 [Stub.q_cat; Stub.q_dog] 4 Stub.q_cat).
  - reflexivity.
  - simpl. now left.
Defined.

Lemma options_pairwise_distinct_two_sentences :
  NoDup (options Stub.q_dog)
  /\ exists distractors,
       Permutation (distractors ++ [answer Stub.q_dog])%list (options Stub.q_dog)
       /\ NoDup distractors
       /\ forall d, In d distractors ->
                    In d (unique_nouns_of Stub.word_tokenize Stub.pos_tag
                            Stub.stop_words Stub.lower Stub.isalpha
                            (cleaned_text Stub.isspace Stub.two_sentences))
                    /\ Stub.lower d = d
                    /\ d <> Stub.lower (answer Stub.q_dog)
                    /\ d <> answer Stub.q_dog.
Proof.
  apply (options_pairwise_distinct
           Stub.sent_tokenize Stub.word_tokenize Stub.pos_tag Stub.stop_words
           Stub.lower Stub.isalpha Stub.isspace nat
           Stub.random_sample Stub.random_shuffle
           StubFacts.sample_spec StubFacts.shuffle_spec StubFacts.lower_idem
           Stub.two_sentences 2%Z 0 [Stub.q_cat; Stub.q_dog] 4 Stub.q_dog).
  - reflexivity.
  - simpl. right. now left.
Defined.

Lemma only_first_occurrence_blanked_cat_twice :
  exists sentence pre post,
    In sentence (Stub.sent_tokenize (cleaned_text Stub.isspace Stub.cat_twice))
    /\ sentence = pre ++ answer Stub.q_cat_twice ++ post
    /\ question Stub.q_cat_twice = pre ++ blank ++ post
    /\ (forall i, i < String.length pre ->
                  occurs_at (answer Stub.q_cat_twice) i sentence = false)
    /\ (forall i, String.length pre + String.length (answer Stub.q_cat_twice) <= i ->
                  Str.drop (i + String.length blank
                            - String.length (answer Stub.q_cat_twice))
                           (question Stub.q_cat_twice)
                  = Str.drop i sentence)
    /\ (forall i, String.length pre + String.length (answer Stub.q_cat_twice) <= i ->
                  occurs_at (answer Stub.q_cat_twice) i sentence = true ->
                  occurs_at (answer Stub.q_cat_twice)
                            (i + String.length blank
                             - String.length (answer Stub.q_cat_twice))
                            (question Stub.q_cat_twice) = true).
Proof.
  apply (only_first_occurrence_blanked
           Stub.sent_tokenize Stub.word_tokenize Stub.pos_tag Stub.stop_words
           Stub.lower Stub.isalpha Stub.isspace nat
           Stub.random_sample Stub.random_shuffle
           Stub.cat_twice 5%Z 0 [Stub.q_cat_twice] 1 Stub.q_cat_twice).
  - reflexivity.
  - simpl. now left.
Defined.

Lemma ids_contiguous_two_sentences :
  map id [Stub.q_cat; Stub.q_dog] = map Z.of_nat (seq 0 2)
  /\ NoDup (map id [Stub.q_cat; Stub.q_dog]).
Proof.
  apply (ids_contiguous
           Stub.sent_tokenize Stub.word_tokenize Stub.pos_tag Stub.stop_words
           Stub.lower Stub.isalpha Stub.isspace nat
           Stub.random_sample Stub.random_shuffle
           Stub.two_sentences 2%Z 0 [Stub.q_cat; Stub.q_dog] 4).
  reflexivity.
Defined.

Lemma no_questions_requested_negative :
  Stub.generate Stub.two_sentences (-3)%Z 7 = Ok ([], 7)
  /\ Stub.generate Stub.two_sentences 0%Z 7 = Ok ([], 7).
Proof.
  split.
  - apply (no_questions_requested
             Stub.sent_tokenize Stub.word_tokenize Stub.pos_tag Stub.stop_words
             Stub.lower Stub.isalpha Stub.isspace nat
             Stub.random_sample Stub.random_shuffle
             Stub.two_sentences (-3)%Z 7).
    lia.
  - apply (no_questions_requested
             Stub.sent_tokenize Stub.word_tokenize Stub.pos_tag Stub.stop_words
             Stub.lower Stub.isalpha Stub.isspace nat
             Stub.random_sample Stub.random_shuffle
             Stub.two_sentences 0%Z 7).
    lia.
Defined.

Lemma empty_vocabulary_no_nouns :
  Stub.generate Stub.no_nouns 5%Z 0 = Ok ([], 0).
Proof.
  apply (empty_vocabulary
           Stub.sent_tokenize Stub.word_tokenize Stub.pos_tag Stub.stop_words
           Stub.lower Stub.isalpha Stub.isspace nat
           Stub.random_sample Stub.random_shuffle
           Stub.no_nouns 5%Z 0).
  reflexivity.
Defined.

(** The claim C3 as it is written fails for a later occurrence that
    overlaps the first one: in "The nanan is a nan." the answer "nan"
    occurs at the indices 4, 6 and 15; the one at 6 shares a letter with
    the one that is replaced and is not in "The _____an is a nan.". *)
Lemma overlapping_occurrence_lost :
  ~ (forall res g' q sentence pre post i,
        Stub.generate Stub.nan_overlap 5%Z 0 = Ok (res, g') ->
        In q res ->
        In sentence
           (Stub.sent_tokenize (cleaned_text Stub.isspace Stub.nan_overlap)) ->
        sentence = pre ++ answer q ++ post ->
        question q = pre ++ blank ++ post ->
        String.length pre < i ->
        occurs_at (answer q) i sentence = true ->
        occurs_at (answer q)
                  (i + String.length blank - String.length (answer q))
                  (question q) = true).
Proof.
  intros H.
  specialize (H [Stub.q_nan_overlap] 1 Stub.q_nan_overlap Stub.nan_overlap
                "The " "an is a nan." 6 eq_refl (or_introl eq_refl)
                (or_introl eq_refl) eq_refl eq_refl).
  assert (L : String.length "The " < 6) by (cbn; lia).
  specialize (H L eq_refl). vm_compute in H. discriminate H.
Qed.

(** The claim C2 as it is written fails on a sentence that already has the
    marker: the question made from "The _____ cat sat." has it twice. *)
Lemma blank_marker_twice :
  ~ (forall res g' q,
        Stub.generate Stub.with_underscores 5%Z 0 = Ok (res, g') ->
        In q res ->
        Str.count (question q) blank = 1).
Proof.
  intros H.
  specialize (H [Stub.q_underscores] 1 Stub.q_underscores eq_refl
                (or_introl eq_refl)).
  vm_compute in H. discriminate H.
Qed.

Lemma blank_marker_count_cat_twice :
  exists sentence pre post,
    In sentence (Stub.sent_tokenize (cleaned_text Stub.isspace Stub.cat_twice))
    /\ sentence = pre ++ answer Stub.q_cat_twice ++ post
    /\ (forall i, i < String.length pre ->
                  occurs_at (answer Stub.q_cat_twice) i sentence = false)
    /\ question Stub.q_cat_twice = pre ++ blank ++ post
    /\ Str.count (question Stub.q_cat_twice) blank
       = S (Str.count (pre ++ post) blank)
    /\ (Str.count (question Stub.q_cat_twice) blank = 1
        <-> Str.count (pre ++ post) blank = 0).
Proof.
  apply (blank_marker_count
           Stub.sent_tokenize Stub.word_tokenize Stub.pos_tag Stub.stop_words
           Stub.lower Stub.isalpha Stub.isspace nat
           Stub.random_sample Stub.random_shuffle
           Stub.cat_twice 5%Z 0 [Stub.q_cat_twice] 1 Stub.q_cat_twice).
  - reflexivity.
  - simpl. now left.
Defined.

(** The claim C4 as it is written fails for a negative count: the empty
    list that is returned is longer than -1. *)
Lemma length_exceeds_negative_count :
  ~ (forall res g',
        Stub.generate Stub.two_sentences (-1)%Z 0 = Ok (res, g') ->
        (Z.of_nat (List.length res) <= -1)%Z).
Proof.
  intros H. specialize (H [] 0 eq_refl). simpl in H. lia.
Qed.

Lemma length_bounded_and_stops_two_sentences :
  (Z.of_nat (List.length [Stub.q_cat]) <= Z.max 0 1)%Z
  /\ Stub.generate Stub.two_sentences 1%Z 0 = Ok ([Stub.q_cat], 2).
Proof.
  destruct (length_bounded_and_stops
              Stub.sent_tokenize Stub.word_tokenize Stub.pos_tag Stub.stop_words
              Stub.lower Stub.isalpha Stub.isspace nat
              Stub.random_sample Stub.random_shuffle
              Stub.two_sentences 1%Z 0) as [bound stops].
  split.
  - apply (bound [Stub.q_cat] 2). reflexivity.
  - apply (stops ["The cat sat on the mat."] ["The dog ran in the park."]).
    + reflexivity.
    + reflexivity.
    + simpl. lia.
Defined.

Lemma one_record_per_q_key_posted :
  fst (submit Stub.posted) =
  [Build_graded "The _____ sat on the mat." (Some "cat") (Some "cat") true;
   Build_graded "" (Some "The _____ sat on the mat.") None false]
  /\ In (Build_graded "" (Some "The _____ sat on the mat.") None false)
        (fst (submit Stub.posted)).
Proof.
  split.
  - rewrite (proj1 (one_record_per_q_key Stub.posted)). reflexivity.
  - apply (proj2 (one_record_per_q_key Stub.posted) "0"
                 "The _____ sat on the mat.");
      reflexivity.
Defined.

(** ** The small instance, continued *)

Module StubWebFacts.

Lemma space_is_space : Stub.isspace " " = true.
Proof. reflexivity. Qed.

Lemma newline_is_space : Stub.isspace "010" = true.
Proof. reflexivity. Qed.

Lemma download_installs (path name : string) (s : list string) :
  In (path, name) nltk_resources ->
  StubWeb.find path (StubWeb.download name s) = true.
Proof.
  intros [H|[H|[H|[]]]]; injection H as <- <-; reflexivity.
Qed.

Lemma download_keeps (path name : string) (s : list string) :
  StubWeb.find path s = true ->
  StubWeb.find path (StubWeb.download name s) = true.
Proof.
  intros H. unfold StubWeb.find, StubWeb.download. cbn [existsb].
  unfold StubWeb.find in H. rewrite H. apply orb_true_r.
Qed.

End StubWebFacts.

(** ** The scenarios of the other functions, run *)

Lemma answer_is_first_noun_dog :
  exists sentence before tag after,
    In sentence (Stub.sent_tokenize (cleaned_text Stub.isspace Stub.two_sentences))
    /\ Stub.pos_tag (Stub.word_tokenize sentence)
       = (before ++ (answer Stub.q_dog, tag) :: after)%list
    /\ Str.startswith tag "NN" = true.
Proof.
  destruct (answer_is_first_noun
              Stub.sent_tokenize Stub.word_tokenize Stub.pos_tag Stub.stop_words
              Stub.lower Stub.isalpha Stub.isspace nat
              Stub.random_sample Stub.random_shuffle
              Stub.two_sentences 2%Z 0 [Stub.q_cat; Stub.q_dog] 4 Stub.q_dog
              eq_refl (or_intror (or_introl eq_refl)))
    as (sentence & before & tag & after & H1 & H2 & H3 & _).
  now exists sentence, before, tag, after.
Defined.

Lemma options_count_two_sentences :
  List.length (options Stub.q_cat) = 4.
Proof.
  apply (options_count
           Stub.sent_tokenize Stub.word_tokenize Stub.pos_tag Stub.stop_words
           Stub.lower Stub.isalpha Stub.isspace nat
           Stub.random_sample Stub.random_shuffle
           StubFacts.sample_spec StubFacts.shuffle_spec
           Stub.two_sentences 2%Z 0 [Stub.q_cat; Stub.q_dog] 4 Stub.q_cat).
  - reflexivity.
  - simpl. now left.
Defined.

Lemma result_length_two_sentences :
  Z.of_nat (List.length [Stub.q_cat; Stub.q_dog]) = Z.min (Z.max 0 5) 2.
Proof.
  apply (result_length
           Stub.sent_tokenize Stub.word_tokenize Stub.pos_tag Stub.stop_words
           Stub.lower Stub.isalpha Stub.isspace nat
           Stub.random_sample Stub.random_shuffle
           Stub.two_sentences 5%Z 0 [Stub.q_cat; Stub.q_dog] 4).
  reflexivity.
Defined.

Lemma records_follow_sentences_two :
  Forall2 (fun sentence q =>
             first_eligible Stub.lower
               (unique_nouns_of Stub.word_tokenize Stub.pos_tag Stub.stop_words
                                Stub.lower Stub.isalpha
                                (cleaned_text Stub.isspace Stub.two_sentences))
               (Stub.pos_tag (Stub.word_tokenize sentence)) = Some (answer q)
             /\ exists pre post,
                 Str.find_split (answer q) sentence = Some (pre, post)
                 /\ sentence = pre ++ answer q ++ post
                 /\ (forall i, i < String.length pre ->
                               occurs_at (answer q) i sentence = false)
                 /\ question q = pre ++ blank ++ post)
          ["The cat sat on the mat."; "The dog ran in the park."]
          [Stub.q_cat; Stub.q_dog].
Proof.
  apply (records_follow_sentences
           Stub.sent_tokenize Stub.word_tokenize Stub.pos_tag Stub.stop_words
           Stub.lower Stub.isalpha Stub.isspace nat
           Stub.random_sample Stub.random_shuffle
           Stub.two_sentences 2%Z 0 [Stub.q_cat; Stub.q_dog] 4).
  reflexivity.
Defined.

Lemma fewer_questions_prefix_one_of_two :
  exists g'', Stub.generate Stub.two_sentences 1%Z 0 = Ok ([Stub.q_cat], g'').
Proof.
  apply (fewer_questions_prefix
           Stub.sent_tokenize Stub.word_tokenize Stub.pos_tag Stub.stop_words
           Stub.lower Stub.isalpha Stub.isspace nat
           Stub.random_sample Stub.random_shuffle
           Stub.two_sentences 1%Z 2%Z 0 [Stub.q_cat; Stub.q_dog] 4).
  - lia.
  - reflexivity.
Defined.

Lemma cleaned_text_idempotent_ragged :
  cleaned_text Stub.isspace
    (cleaned_text Stub.isspace "  The cat   sat. ")
  = cleaned_text Stub.isspace "  The cat   sat. ".
Proof.
  apply (cleaned_text_idempotent Stub.isspace). reflexivity.
Defined.

Lemma cleaned_text_same_words_ragged :
  Str.split_ws Stub.isspace
    (cleaned_text Stub.isspace "  The cat   sat. ") EmptyString
  = ["The"; "cat"; "sat."].
Proof.
  rewrite (proj1 (cleaned_text_same_words Stub.isspace eq_refl
                                          "  The cat   sat. ")).
  reflexivity.
Defined.

Lemma extracted_words_notes :
  exists text,
    extract_text_from_pdf extracted StubWeb.PdfReader StubWeb.extract_text
                          "%PDF text" = Done text
    /\ cleaned_text Stub.isspace text
       = "The cat sat on the mat. The dog ran in the park.".
Proof.
  apply (extracted_words Stub.isspace extracted StubWeb.PdfReader
                         StubWeb.extract_text eq_refl "%PDF text"
                         [Text "The cat sat on the mat."; ExtractFails;
                          Text "The dog ran in the park."]).
  reflexivity.
Defined.

Lemma quiz_pdf_without_text_scan :
  StubWeb.quiz (Some StubWeb.scan) StubWeb.ask_two 0
  = Redirect_index unable_message.
Proof.
  apply (quiz_pdf_without_text
           Stub.sent_tokenize Stub.word_tokenize Stub.pos_tag Stub.stop_words
           Stub.lower Stub.isalpha Stub.isspace nat
           Stub.random_sample Stub.random_shuffle
           extracted StubWeb.PdfReader StubWeb.extract_text StubWeb.int
           eq_refl StubWeb.scan StubWeb.ask_two 0
           [NoText; ExtractFails; Text EmptyString]).
  - discriminate.
  - reflexivity.
  - reflexivity.
  - reflexivity.
Defined.

Lemma quiz_rendered_batch_notes :
  (exists fs, Some StubWeb.notes = Some fs /\ filename fs <> EmptyString)
  /\ [Stub.q_cat; Stub.q_dog] <> []
  /\ (Z.of_nat (List.length [Stub.q_cat; Stub.q_dog])
      <= num_questions_of StubWeb.int StubWeb.ask_two)%Z
  /\ map id [Stub.q_cat; Stub.q_dog] = map Z.of_nat (seq 0 2).
Proof.
  apply (quiz_rendered_batch
           Stub.sent_tokenize Stub.word_tokenize Stub.pos_tag Stub.stop_words
           Stub.lower Stub.isalpha Stub.isspace nat
           Stub.random_sample Stub.random_shuffle
           extracted StubWeb.PdfReader StubWeb.extract_text StubWeb.int
           (Some StubWeb.notes) StubWeb.ask_two 0 [Stub.q_cat; Stub.q_dog]).
  reflexivity.
Defined.

Lemma quiz_count_not_positive_notes :
  StubWeb.quiz (Some StubWeb.notes) StubWeb.ask_none 0
  = Redirect_index unable_message.
Proof.
  apply (quiz_count_not_positive
           Stub.sent_tokenize Stub.word_tokenize Stub.pos_tag Stub.stop_words
           Stub.lower Stub.isalpha Stub.isspace nat
           Stub.random_sample Stub.random_shuffle
           extracted StubWeb.PdfReader StubWeb.extract_text StubWeb.int
           StubWeb.notes StubWeb.ask_none 0
           [Text "The cat sat on the mat."; ExtractFails;
            Text "The dog ran in the park."]).
  - discriminate.
  - reflexivity.
  - vm_compute. discriminate.
Defined.

Lemma missing_answer_is_incorrect_q1 :
  In (Build_graded "" (Some "dog") None false) (fst (submit StubWeb.unanswered)).
Proof.
  apply (missing_answer_is_incorrect StubWeb.unanswered "q1" "dog");
    reflexivity.
Defined.

Lemma nothing_to_grade_not_a_quiz :
  submit StubWeb.not_a_quiz = ([], 0%Z).
Proof.
  apply (nothing_to_grade StubWeb.not_a_quiz).
  repeat constructor.
Defined.

Lemma score_of_posted_quiz_two_answers :
  snd (submit StubWeb.two_answers) = 1%Z
  /\ List.length (fst (submit StubWeb.two_answers)) = 4.
Proof.
  apply (score_of_posted_quiz StubWeb.two_answers ["0"; "1"]).
  - apply Permutation_refl.
  - repeat constructor.
Defined.

Lemma ensure_nltk_data_idempotent_partial :
  Forall (fun r => StubWeb.find (fst r)
                     (ensure_nltk_data (list string) StubWeb.find
                                       StubWeb.download ["punkt"]) = true)
         nltk_resources
  /\ (Forall (fun r => StubWeb.find (fst r) ["punkt"] = true) nltk_resources ->
      ensure_nltk_data (list string) StubWeb.find StubWeb.download ["punkt"]
      = ["punkt"])
  /\ ensure_nltk_data (list string) StubWeb.find StubWeb.download
       (ensure_nltk_data (list string) StubWeb.find StubWeb.download ["punkt"])
     = ensure_nltk_data (list string) StubWeb.find StubWeb.download ["punkt"].
Proof.
  apply (ensure_nltk_data_idempotent (list string) StubWeb.find StubWeb.download
           StubWebFacts.download_installs StubWebFacts.download_keeps
           ["punkt"]).
Defined.

Lemma quiz_default_count_notes :
  num_questions_of StubWeb.int [("num_questions", "many")] = 5%Z
  /\ 1 <= List.length [Stub.q_cat; Stub.q_dog] <= 5.
Proof.
  destruct (quiz_default_count
              Stub.sent_tokenize Stub.word_tokenize Stub.pos_tag Stub.stop_words
              Stub.lower Stub.isalpha Stub.isspace nat
              Stub.random_sample Stub.random_shuffle
              extracted StubWeb.PdfReader StubWeb.extract_text StubWeb.int
              (Some StubWeb.notes) [("num_questions", "many")] 0)
    as [five rendered].
  - right. exists "many". split; reflexivity.
  - split; [exact five|].
    apply (rendered [Stub.q_cat; Stub.q_dog]). reflexivity.
Defined.

Lemma generate_ignores_spacing_ragged :
  Stub.generate (cleaned_text Stub.isspace "  The cat   sat. ") 5%Z 0
  = Stub.generate "  The cat   sat. " 5%Z 0.
Proof.
  apply (generate_ignores_spacing
           Stub.sent_tokenize Stub.word_tokenize Stub.pos_tag Stub.stop_words
           Stub.lower Stub.isalpha Stub.isspace nat
           Stub.random_sample Stub.random_shuffle eq_refl).
Defined.

Lemma score_counts_exact_matches_two_answers :
  In (Build_graded "The _____ ran in the park." (Some "park") (Some "dog") false)
     (fst (submit StubWeb.two_answers))
  /\ snd (submit StubWeb.two_answers) = 1%Z.
Proof.
  destruct (score_counts_exact_matches StubWeb.two_answers)
    as (graded_all & _ & _ & score).
  split.
  - apply (graded_all "q1" "park"); reflexivity.
  - rewrite score. reflexivity.
Defined.

Lemma index_error_iff_answer_missing_folded :
  generate_mcq_questions
    Stub.sent_tokenize StubWeb.folding_word_tokenize Stub.pos_tag
    Stub.stop_words Stub.lower Stub.isalpha Stub.isspace nat
    Stub.random_sample Stub.random_shuffle "Cat sat." 5%Z 0
  = Raise IndexError.
Proof.
  apply (index_error_iff_answer_missing
           Stub.sent_tokenize StubWeb.folding_word_tokenize Stub.pos_tag
           Stub.stop_words Stub.lower Stub.isalpha Stub.isspace nat
           Stub.random_sample Stub.random_shuffle "Cat sat." 5%Z 0).
  reflexivity.
Defined.
